(** * bos-sitemap-generator: URL collection, chunking and sitemap validation

    A shallow embedding of [src/lib/utils.js], [src/lib/url-builder.js],
    [src/lib/sitemap-validator.js] and of the driver [run] of [src/index.js],
    followed by the properties of the specification that were checked
    against it.

    JavaScript strings are modelled as [string] (sequences of 8-bit code
    units); the two Unicode line terminators U+2028 and U+2029 and the
    non-ASCII white space of [String.prototype.trim] are outside this
    alphabet.  Console output ([core.info], [core.warning]) is not part of
    the model; [core.setFailed] and file writes are. *)

From Stdlib Require Import ZArith QArith Ascii String List Permutation Sorted.
From stdpp Require Import base option list strings gmap pretty.

Open Scope Z_scope.

(** ** ECMAScript strings *)

Module Js.

Definition LF : ascii := "010"%char.
Definition CR : ascii := "013"%char.
Definition TAB : ascii := "009"%char.
Definition VT : ascii := "011"%char.
Definition FF : ascii := "012"%char.
Definition DQUOTE : ascii := "034"%char.

(** Truthiness of a string value: every string but the empty one. *)
Definition truthy (s : string) : bool :=
  match s with EmptyString => false | String _ _ => true end.

(** [a || b] on strings. *)
Definition orElse (a b : string) : string := if truthy a then a else b.

(** [s.startsWith(p)] *)
Fixpoint startsWith (s p : string) : bool :=
  match p, s with
  | EmptyString, _ => true
  | String _ _, EmptyString => false
  | String b p', String a s' => Ascii.eqb a b && startsWith s' p'
  end.

(** [s.includes(sub)] *)
Fixpoint includes (s sub : string) : bool :=
  startsWith s sub
  || match s with
     | EmptyString => false
     | String _ s' => includes s' sub
     end.

Fixpoint dropChars (n : nat) (s : string) : string :=
  match n, s with
  | O, _ => s
  | S _, EmptyString => EmptyString
  | S k, String _ s' => dropChars k s'
  end.

(** [s.endsWith(p)] *)
Definition endsWith (s p : string) : bool :=
  (String.length p <=? String.length s)%nat
  && String.eqb (dropChars (String.length s - String.length p) s) p.

Definition isUpper (c : ascii) : bool :=
  let n := nat_of_ascii c in ((65 <=? n) && (n <=? 90))%nat.

Definition lowerChar (c : ascii) : ascii :=
  if isUpper c then ascii_of_nat (nat_of_ascii c + 32) else c.

(** [s.toLowerCase()] on the ASCII letters. *)
Fixpoint toLowerCase (s : string) : string :=
  match s with
  | EmptyString => EmptyString
  | String c s' => String (lowerChar c) (toLowerCase s')
  end.

(** Case-insensitive prefix test, as a regular expression [/^p/i] with a
    literal lower-case [p] performs it. *)
Definition startsWithCI (s p : string) : bool :=
  startsWith (toLowerCase s) p.

(** Case-insensitive search, as [/p/i.test(s)] with a literal
    lower-case [p]. *)
Definition includesCI (s p : string) : bool :=
  includes (toLowerCase s) p.

(** [/^https?:\/\//i.test(s)] *)
Definition isHttpUrl (s : string) : bool :=
  startsWithCI s "http://" || startsWithCI s "https://".

(** [s.replace(/^\//, '')] *)
Definition stripLeadingSlash (s : string) : string :=
  match s with
  | String "/"%char s' => s'
  | _ => s
  end.

(** [s.replace(/^\./, '')] *)
Definition stripLeadingDot (s : string) : string :=
  match s with
  | String "."%char s' => s'
  | _ => s
  end.

(** [s.replace(/\\/g, '/')] *)
Fixpoint backslashesToSlashes (s : string) : string :=
  match s with
  | EmptyString => EmptyString
  | String c s' =>
      String (if Ascii.eqb c "\"%char then "/"%char else c)
             (backslashesToSlashes s')
  end.

(** [/\\/.test(s)] *)
Fixpoint hasBackslash (s : string) : bool :=
  match s with
  | EmptyString => false
  | String c s' => Ascii.eqb c "\"%char || hasBackslash s'
  end.

Definition isLetter (c : ascii) : bool :=
  let n := nat_of_ascii (lowerChar c) in ((97 <=? n) && (n <=? 122))%nat.

(** [/^[a-zA-Z]:\\/.test(s)] *)
Definition hasDrivePrefix (s : string) : bool :=
  match s with
  | String c (String ":"%char (String "\"%char _)) => isLetter c
  | _ => false
  end.

(** White space of [trim], [parseInt] and the class [\s], on ASCII. *)
Definition isSpace (c : ascii) : bool :=
  Ascii.eqb c " "%char || Ascii.eqb c TAB || Ascii.eqb c LF
  || Ascii.eqb c VT || Ascii.eqb c FF || Ascii.eqb c CR.

Fixpoint trimStart (s : string) : string :=
  match s with
  | EmptyString => EmptyString
  | String c s' => if isSpace c then trimStart s' else s
  end.

Fixpoint trimEnd (s : string) : string :=
  match s with
  | EmptyString => EmptyString
  | String c s' =>
      match trimEnd s' with
      | EmptyString => if isSpace c then EmptyString else String c EmptyString
      | t => String c t
      end
  end.

(** [s.trim()] *)
Definition trim (s : string) : string := trimEnd (trimStart s).

Definition digitOf (c : ascii) : option Z :=
  let n := nat_of_ascii c in
  if ((48 <=? n) && (n <=? 57))%nat then Some (Z.of_nat (n - 48)) else None.

(** The value of the longest prefix of decimal digits, and whether any
    digit was read. *)
Fixpoint digitsPrefix (s : string) (acc : Z) (seen : bool) : Z * bool :=
  match s with
  | EmptyString => (acc, seen)
  | String c s' =>
      match digitOf c with
      | Some d => digitsPrefix s' (10 * acc + d) true
      | None => (acc, seen)
      end
  end.

(** [parseInt(s, 10)]; [None] stands for [NaN]. *)
Definition parseInt10 (s : string) : option Z :=
  let t := trimStart s in
  let '(neg, body) :=
    match t with
    | String "-"%char r => (true, r)
    | String "+"%char r => (false, r)
    | _ => (false, t)
    end in
  let '(v, seen) := digitsPrefix body 0 false in
  if seen then Some (if neg then - v else v) else None.

(** [n >= cap] for an integer [n] and a cap that may be [NaN]: every
    comparison with [NaN] is false. *)
Definition geNum (n : Z) (cap : option Z) : bool :=
  match cap with
  | Some c => c <=? n
  | None => false
  end.

(** An IEEE double as far as the comparisons of the program need it. *)
Inductive Number : Type :=
| NaN
| Infinite (negative : bool)
| Finite (q : Q).

(** [isNaN(pr) || pr < 0.0 || pr > 1.0] *)
Definition outsideUnitInterval (pr : Number) : bool :=
  match pr with
  | NaN => true
  | Infinite _ => true
  | Finite q => negb (Qle_bool 0%Q q) || negb (Qle_bool q 1%Q)
  end.

(** [Array.prototype.slice(start, end)], with negative indices counted
    from the end and both bounds clamped. *)
Definition slice {A} (l : list A) (from to : Z) : list A :=
  let len := Z.of_nat (length l) in
  let k := if from <? 0 then Z.max (len + from) 0 else Z.min from len in
  let fin := if to <? 0 then Z.max (len + to) 0 else Z.min to len in
  take (Z.to_nat (fin - k)) (drop (Z.to_nat k) l).

(** [Array.prototype.sort(cmp)]: for a consistent comparator the
    language fixes the result as the stable sort, which insertion from
    the right computes. *)
Fixpoint sortInsert {A} (cmp : A -> A -> Z) (x : A) (l : list A) : list A :=
  match l with
  | [] => [x]
  | y :: l' => if cmp x y <=? 0 then x :: y :: l' else y :: sortInsert cmp x l'
  end.

Definition sort {A} (cmp : A -> A -> Z) (l : list A) : list A :=
  foldr (sortInsert cmp) [] l.

(** A [Set] of strings is the list of its members in insertion order,
    which is the order in which the program iterates over it. *)
Definition Set_has (s : list string) (u : string) : bool :=
  bool_decide (u ∈ s).

Definition Set_add (s : list string) (u : string) : list string :=
  if Set_has s u then s else s ++ [u].

Definition Set_size (s : list string) : Z := Z.of_nat (length s).

End Js.

(** ** The platform and the world

    Library functions of Node.js and ECMAScript that the program calls
    but does not define are fields of [Platform]; a function that can
    throw answers [None] when it does.  What a run finds on disk and in
    its environment is a [World]. *)

(** What the program reads from a parsed HTML document. *)
Record Dom : Type := {
  (** [root.querySelector('link[rel="canonical"]')?.getAttribute('href')] *)
  canonicalHref : option string;
  (** [getAttribute('href')] of each [root.querySelectorAll('a[href]')] *)
  anchorHrefs : list string
}.

Record Stat : Type := {
  (** [new Date(stat.mtime).toISOString()] *)
  mtimeISO : string;
  isFile : bool
}.

Record Platform : Type := {
  (** [new URL(rel, base).toString()] *)
  URL_resolve : string -> string -> option string;
  (** [new URL(u).pathname] *)
  URL_pathname : string -> option string;
  path_join : string -> string -> string;
  path_relative : string -> string -> string;
  path_win32_relative : string -> string -> string;
  path_extname : string -> string;
  path_basename : string -> string;
  path_dirname : string -> string;
  (** [a.localeCompare(b)] *)
  localeCompare : string -> string -> Z;
  (** [new RegExp(source).test(s)] *)
  RegExp_test : string -> string -> option bool;
  parseFloat : string -> Js.Number
}.

Record World : Type := {
  (** [glob.sync(pattern, { cwd, ignore, nodir, dot, follow })] *)
  glob_sync : string -> string -> list string -> list string;
  statSync : string -> option Stat;
  existsSync : string -> bool;
  (** [parseHtml(fs.readFileSync(p, 'utf8'))] *)
  readHtml : string -> option Dom;
  (** [getGitLastCommitISO] of [utils.js], which shells out to git *)
  getGitLastCommitISO : string -> option string;
  (** [new Date().toISOString()] at the n-th file of the walk *)
  nowISO : nat -> string;
  (** [findPublicDir] and [inferSiteUrl] of [utils.js] in this world *)
  findPublicDir : string -> option string;
  inferSiteUrl : option string -> option string;
  (** [process.env.NAME] *)
  env : gmap string string
}.

(** [process.env.NAME || fallback] *)
Definition envOr (w : World) (name fallback : string) : string :=
  Js.orElse (default EmptyString (env w !! name)) fallback.

(** ** [src/lib/utils.js] *)

Section Utils.
Context (P : Platform).

Definition normalizeUrl (base rel : string) : option string :=
  let base := if negb (Js.endsWith base "/") then base +:+ "/" else base in
  URL_resolve P (Js.stripLeadingDot rel) base.

Definition normalizePathToUrl (baseUrl publicDir fsPath : string)
  : option string :=
  let isWindowsLike :=
    Js.hasBackslash publicDir || Js.hasBackslash fsPath
    || Js.hasDrivePrefix publicDir || Js.hasDrivePrefix fsPath in
  let relRaw :=
    if isWindowsLike then path_win32_relative P publicDir fsPath
    else path_relative P publicDir fsPath in
  let rel := "/" +:+ Js.backslashesToSlashes relRaw in
  normalizeUrl baseUrl rel.

End Utils.

(** ** [src/lib/url-builder.js] *)

(** The [priority] property of an item: the walk stores
    [Number(priority)], the two merge loops store the option as given. *)
Inductive Priority : Type :=
| PriorityNumber (source : string)
| PriorityRaw (source : string).

Record Item : Type := {
  url : string;
  lastmod : option string;
  changefreq : option string;
  priority : option Priority
}.

Record Options : Type := {
  baseUrl : string;
  publicDir : string;
  includePatterns : list string;
  excludePatterns : list string;
  excludeExtensions : list string;
  excludeUrls : list string;
  lastmodStrategy : string;
  opt_changefreq : option string;
  opt_priority : option string;
  additionalUrls : list string;
  parseCanonical : bool;
  discoverLinks : bool
}.

(** [patterns.join(',')] *)
Fixpoint joinComma (l : list string) : string :=
  match l with
  | [] => EmptyString
  | [x] => x
  | x :: l' => x +:+ "," +:+ joinComma l'
  end.

Definition optTruthy (o : option string) : bool :=
  match o with Some s => Js.truthy s | None => false end.

Section UrlBuilder.
Context (P : Platform) (W : World) (o : Options).

Definition getMaxDiscoveredLinks : option Z :=
  Js.parseInt10 (envOr W "TEST_MAX_DISCOVERED_LINKS" "10000").

Definition getMaxTotalUrls : option Z :=
  Js.parseInt10 (envOr W "TEST_MAX_TOTAL_URLS" "100000").

Definition patterns : list string :=
  match includePatterns o with [] => ["**/*"] | l => l end.

Definition globPattern : string :=
  match patterns with
  | [p] => p
  | ps => "{" +:+ joinComma ps +:+ "}"
  end.

Definition files : list string :=
  glob_sync W globPattern (publicDir o) (excludePatterns o).

(** The item the two merge loops push: [{ url, changefreq, priority }]. *)
Definition mergedItem (u : string) : Item :=
  {| url := u; lastmod := None;
     changefreq := opt_changefreq o;
     priority := PriorityRaw <$> opt_priority o |}.

(** The anchor loop of one document.  [cap] is [MAX_DISCOVERED_LINKS];
    a throw inside the loop is caught by the handler around the HTML
    block, which leaves the set as it is at that moment. *)
Fixpoint discoverAnchors (cap : option Z) (anchors : list string)
    (discoveredSet : list string) : list string :=
  match anchors with
  | [] => discoveredSet
  | hrefA :: rest =>
      if Js.geNum (Js.Set_size discoveredSet) cap then discoveredSet
      else if negb (Js.truthy hrefA) then discoverAnchors cap rest discoveredSet
      else if Js.isHttpUrl hrefA then discoverAnchors cap rest discoveredSet
      else if Js.startsWith hrefA "#" then discoverAnchors cap rest discoveredSet
      else
        let targetFs := path_join P (publicDir o) (Js.stripLeadingSlash hrefA) in
        if existsSync W targetFs then
          match statSync W targetFs with
          | None => discoveredSet
          | Some st =>
              if isFile st then
                match normalizePathToUrl P (baseUrl o) (publicDir o) targetFs with
                | None => discoveredSet
                | Some targetUrl =>
                    discoverAnchors cap rest (Js.Set_add discoveredSet targetUrl)
                end
              else discoverAnchors cap rest discoveredSet
          end
        else discoverAnchors cap rest discoveredSet
  end.

(** The canonical candidate of an [href]: the value itself when it is
    an absolute http(s) URL, else the path under [publicDir]. *)
Definition canonicalCandidate (href : string) : option string :=
  if Js.isHttpUrl href then Some href
  else normalizePathToUrl P (baseUrl o) (publicDir o)
         (path_join P (publicDir o) (Js.stripLeadingSlash href)).

(** The HTML block of one file: the URL of the item and the discovery
    set after it. *)
Definition parseHtmlBlock (cap : option Z) (fullFsPath fullUrl : string)
    (discoveredSet : list string) : string * list string :=
  match readHtml W fullFsPath with
  | None => (fullUrl, discoveredSet)
  | Some root =>
      let step (u : string) :=
        if discoverLinks o
        then (u, discoverAnchors cap (anchorHrefs root) discoveredSet)
        else (u, discoveredSet) in
      if optTruthy (canonicalHref root) then
        match canonicalCandidate (default EmptyString (canonicalHref root)) with
        | None => (fullUrl, discoveredSet)
        | Some candidate => step candidate
        end
      else step fullUrl
  end.

Definition isHtmlExt (ext : string) : bool :=
  bool_decide (ext ∈ [".html"; ".htm"]).

Definition lastmodOf (n : nat) (fullFsPath : string) (st : Stat)
  : option string :=
  if String.eqb (lastmodStrategy o) "filemtime" then Some (mtimeISO st)
  else if String.eqb (lastmodStrategy o) "git" then
    match getGitLastCommitISO W fullFsPath with
    | Some iso => if Js.truthy iso then Some iso else Some (mtimeISO st)
    | None => Some (mtimeISO st)
    end
  else if String.eqb (lastmodStrategy o) "current" then Some (nowISO W n)
  else None.

(** One iteration of the loop over [files]; [None] when [normalizeUrl]
    throws outside every handler. *)
Definition walkFile (cap : option Z) (n : nat) (f : string)
    (st : list Item * list string) : option (list Item * list string) :=
  let '(items, discoveredSet) := st in
  let ext := Js.toLowerCase (path_extname P f) in
  if bool_decide (ext ∈ [".map"]) then Some st
  else
    let urlPath := "/" +:+ Js.backslashesToSlashes f in
    fullUrl ← normalizeUrl P (baseUrl o) urlPath;
    let fullFsPath := path_join P (publicDir o) f in
    let '(u, lm, discoveredSet') :=
      match statSync W fullFsPath with
      | None => (fullUrl, None, discoveredSet)
      | Some stat =>
          let '(u, ds) :=
            if parseCanonical o && isHtmlExt ext
            then parseHtmlBlock cap fullFsPath fullUrl discoveredSet
            else (fullUrl, discoveredSet) in
          (u, lastmodOf n fullFsPath stat, ds)
      end in
    let item :=
      {| url := u; lastmod := lm;
         changefreq :=
           if optTruthy (opt_changefreq o) then opt_changefreq o else None;
         priority :=
           if optTruthy (opt_priority o)
           then PriorityNumber <$> opt_priority o else None |} in
    Some (items ++ [item], discoveredSet').

Fixpoint walkFrom (cap : option Z) (n : nat) (fs : list string)
    (st : list Item * list string) : option (list Item * list string) :=
  match fs with
  | [] => Some st
  | f :: rest => st' ← walkFile cap n f st; walkFrom cap (S n) rest st'
  end.

Definition walk (cap : option Z) : option (list Item * list string) :=
  walkFrom cap 0%nat files ([], []).

(** [for (const extra of additionalUrls) items.push(...)] *)
Definition addManual (items : list Item) : list Item :=
  items ++ (mergedItem <$> additionalUrls o).

Definition hasUrl (items : list Item) (u : string) : bool :=
  existsb (fun it => String.eqb (url it) u) items.

(** The loop that merges the discovery set into [items]. *)
Fixpoint mergeLoop (capTotal capDiscovered : option Z) (us : list string)
    (items : list Item) (addedFromDiscovered : Z) : list Item :=
  match us with
  | [] => items
  | u :: rest =>
      if Js.geNum (Z.of_nat (length items)) capTotal then items
      else if Js.geNum addedFromDiscovered capDiscovered then items
      else if negb (hasUrl items u)
      then mergeLoop capTotal capDiscovered rest
             (items ++ [mergedItem u]) (addedFromDiscovered + 1)
      else mergeLoop capTotal capDiscovered rest items addedFromDiscovered
  end.

Definition mergeDiscovered (capTotal capDiscovered : option Z)
    (discoveredSet : list string) (items : list Item) : list Item :=
  if discoverLinks o && negb (Js.Set_size discoveredSet =? 0)
  then mergeLoop capTotal capDiscovered discoveredSet items 0
  else items.

(** [seenUrls] / [uniqueItems] *)
Fixpoint dedupLoop (items : list Item) (seenUrls : gset string)
    (uniqueItems : list Item) : list Item :=
  match items with
  | [] => uniqueItems
  | item :: rest =>
      if bool_decide (url item ∈ seenUrls)
      then dedupLoop rest seenUrls uniqueItems
      else dedupLoop rest ({[url item]} ∪ seenUrls) (uniqueItems ++ [item])
  end.

Definition removeDuplicates (items : list Item) : list Item :=
  dedupLoop items ∅ [].

(** [excludeUrl.includes('*') || excludeUrl.includes('?')] *)
Definition hasWildcard (excludeUrl : string) : bool :=
  Js.includes excludeUrl "*" || Js.includes excludeUrl "?".

(** [excludeUrl.replace(/\*/g, '.*').replace(/\?/g, '.')] *)
Fixpoint wildcardsToRegex (excludeUrl : string) : string :=
  match excludeUrl with
  | EmptyString => EmptyString
  | String c s' =>
      if Ascii.eqb c "*"%char then ".*" +:+ wildcardsToRegex s'
      else if Ascii.eqb c "?"%char then "." +:+ wildcardsToRegex s'
      else String c (wildcardsToRegex s')
  end.

Definition excludeRegex (excludeUrl : string) : string :=
  "^" +:+ wildcardsToRegex excludeUrl +:+ "$".

(** The callback of [uniqueItems.filter]: [Some true] keeps the item,
    [None] when the [RegExp] constructor throws. *)
Fixpoint keepItem (u : string) (entries : list string) : option bool :=
  match entries with
  | [] => Some true
  | excludeUrl :: rest =>
      if String.eqb u excludeUrl then Some false
      else if hasWildcard excludeUrl then
        m ← RegExp_test P (excludeRegex excludeUrl) u;
        if (m : bool) then Some false else keepItem u rest
      else keepItem u rest
  end.

Fixpoint filterExcluded (entries : list string) (items : list Item)
  : option (list Item) :=
  match items with
  | [] => Some []
  | item :: rest =>
      k ← keepItem (url item) entries;
      rest' ← filterExcluded entries rest;
      Some (if (k : bool) then item :: rest' else rest')
  end.

Definition sortItems (items : list Item) : list Item :=
  Js.sort (fun a b => localeCompare P (url a) (url b)) items.

(** The list before duplicates are removed. *)
Definition collectItems : option (list Item) :=
  '(items, discoveredSet) ← walk getMaxDiscoveredLinks;
  Some (mergeDiscovered getMaxTotalUrls getMaxDiscoveredLinks discoveredSet
          (addManual items)).

Definition buildUrls : option (list Item) :=
  items ← collectItems;
  let uniqueItems := removeDuplicates items in
  filteredItems ←
    (if (0 <? length (excludeUrls o))%nat
     then filterExcluded (excludeUrls o) uniqueItems
     else Some uniqueItems);
  Some (sortItems filteredItems).

End UrlBuilder.

(** ** [src/index.js]: the driver

    The text of [src/index.js] follows that of [src/lib/html-parser.js]
    in the file of that name; [run] and [getMaxUrlsPerSitemap] are
    defined there. *)

(** [for (i = 0; i < urls.length; i += max) chunks.push(urls.slice(i, i + max))].
    The loop does not end when [max] is zero or negative, so it is run on
    fuel; with [max] equal to [NaN] the counter becomes [NaN] after one
    round and the loop stops. *)
Fixpoint chunkLoop {A} (fuel : nat) (urls : list A) (max : Z) (i : Z)
  : option (list (list A)) :=
  match fuel with
  | O => None
  | S fuel' =>
      if i <? Z.of_nat (length urls)
      then cons (Js.slice urls i (i + max)) <$> chunkLoop fuel' urls max (i + max)
      else Some []
  end.

Definition chunkUrls {A} (fuel : nat) (urls : list A) (max : option Z)
  : option (list (list A)) :=
  match max with
  | Some m => chunkLoop fuel urls m 0
  | None => Some (if 0 <? Z.of_nat (length urls) then [Js.slice urls 0 0] else [])
  end.

(** [ceil(n / m)] for a positive [m]. *)
Definition ceilDiv (n m : Z) : Z := (n + m - 1) / m.

Inductive Failure : Type :=
| MissingSiteUrl
| MissingPublicDir
| InvalidPriority (priorityInput : string)
| InvalidAdditionalUrls (count : nat)
| SiteUrlScheme
| PublicDirNotFound (publicDir : string)
| Thrown.

Record IndexEntry : Type := {
  ie_url : string;
  ie_lastmod : string
}.

(** The files a run creates, in the order it writes them. *)
Inductive Artifact : Type :=
| XmlFile (path : string) (items : list Item)
| GzipFile (path : string)
| IndexFile (path : string) (entries : list IndexEntry)
| CorruptedIndexFile (path : string)
| TxtFile (path : string) (items : list Item).

Record Outcome : Type := {
  failures : list Failure;
  artifacts : list Artifact
}.

(** [/^true$/i.test(s)] *)
Definition isTrue (s : string) : bool := String.eqb (Js.toLowerCase s) "true".

(** [s.split(',')] *)
Fixpoint splitComma (s : string) (cur : string) : list string :=
  match s with
  | EmptyString => [cur]
  | String c s' =>
      if Ascii.eqb c ","%char then cur :: splitComma s' EmptyString
      else splitComma s' (cur +:+ String c EmptyString)
  end.

(** [s.split(',').map((s) => s.trim()).filter(Boolean)] *)
Definition listInput (s : string) : list string :=
  List.filter Js.truthy (Js.trim <$> splitComma s EmptyString).

Fixpoint takeChars (n : nat) (s : string) : string :=
  match n, s with
  | S k, String c s' => String c (takeChars k s')
  | _, _ => EmptyString
  end.

(** [name.replace(/\.xml$/i, repl)], and the same for any literal
    lower-case extension [ext]. *)
Definition replaceExt (name ext repl : string) : string :=
  if Js.endsWith (Js.toLowerCase name) ext
  then takeChars (String.length name - String.length ext) name +:+ repl
  else name.

Section Run.
Context (P : Platform) (W : World) (inputs : gmap string string).

(** [core.getInput(name)] *)
Definition getInput (name : string) : string :=
  Js.trim (default EmptyString (inputs !! name)).

Definition getMaxUrlsPerSitemap : option Z :=
  Js.parseInt10 (envOr W "TEST_MAX_URLS_PER_SITEMAP" "50000").

Definition resolveBooleanInput (primary legacy def : string) : bool :=
  isTrue (Js.orElse (getInput primary) (Js.orElse (getInput legacy) def)).

Definition excludeExtensionsInput : list string :=
  (fun ext => if Js.startsWith ext "." then ext else "." +:+ ext)
    <$> List.filter Js.truthy
          ((fun s => Js.toLowerCase (Js.trim s))
             <$> splitComma
                   (Js.orElse (getInput "exclude_extensions")
                      ".zip,.exe,.dmg,.pkg,.deb,.rpm,.tar,.gz,.7z,.rar,.iso") EmptyString).

(** The pre-write check of one item: whether it is reported as one that
    should have been excluded. *)
Fixpoint matchesAnyPattern (u : string) (entries : list string) : option bool :=
  match entries with
  | [] => Some false
  | pattern :: rest =>
      m ← RegExp_test P (excludeRegex pattern) u;
      r ← matchesAnyPattern u rest;
      Some ((m : bool) || r)
  end.

Definition leaked (excludeUrls excludeExtensions : list string) (item : Item)
  : option bool :=
  urlPath ← URL_pathname P (url item);
  let filename := path_basename P urlPath in
  let isSitemap :=
    existsb (Js.includes filename)
      ["sitemap.xml"; "sitemap.txt"; "sitemap-index.xml"] in
  byPattern ← matchesAnyPattern (url item) excludeUrls;
  let byExt :=
    existsb (Js.endsWith (Js.toLowerCase filename)) excludeExtensions in
  Some (isSitemap || byPattern || byExt).

Fixpoint invalidUrls (excludeUrls excludeExtensions : list string)
    (urls : list Item) : option (list string) :=
  match urls with
  | [] => Some []
  | item :: rest =>
      b ← leaked excludeUrls excludeExtensions item;
      r ← invalidUrls excludeUrls excludeExtensions rest;
      Some (if (b : bool) then url item :: r else r)
  end.

Definition preWriteFilter (excludeUrls excludeExtensions : list string)
    (urls : list Item) : option (list Item) :=
  inv ← invalidUrls excludeUrls excludeExtensions urls;
  Some (List.filter (fun item => negb (bool_decide (url item ∈ inv))) urls).

Definition gzipOf (sitemapOutputDir out : string) : Artifact :=
  GzipFile (path_join P sitemapOutputDir (path_basename P out +:+ ".gz")).

(** The numbered XML files of a split sitemap, from part [i + 1] on:
    the files written and, unless [normalizeUrl] threw, the index
    entries. *)
Fixpoint writeXmlParts (siteUrl publicDir sitemapOutputDir sitemapFilename : string)
    (generateGzip : bool) (tick : nat) (i : nat) (chunks : list (list Item))
  : list Artifact * option (list IndexEntry) :=
  match chunks with
  | [] => ([], Some [])
  | chunk :: rest =>
      let partName :=
        replaceExt sitemapFilename ".xml" ("-" +:+ pretty (S i) +:+ ".xml") in
      let outPart := path_join P sitemapOutputDir partName in
      match normalizeUrl P siteUrl
              ("/" +:+ Js.backslashesToSlashes (path_relative P publicDir outPart)) with
      | None => ([XmlFile outPart chunk], None)
      | Some u =>
          let '(ws, es) :=
            writeXmlParts siteUrl publicDir sitemapOutputDir sitemapFilename
              generateGzip (S tick) (S i) rest in
          (XmlFile outPart chunk
             :: (if generateGzip then [gzipOf sitemapOutputDir outPart] else [])
             ++ ws,
           cons {| ie_url := u; ie_lastmod := nowISO W tick |} <$> es)
      end
  end.

(** The XML files of a run and whether the block ran to its end.  The
    [sitemap] package refuses a stream that ends without an entry, so
    [writeSitemapXml] rejects on an empty list, after the file has been
    created. *)
Definition writeXml (siteUrl publicDir sitemapOutputDir sitemapFilename : string)
    (generateGzip : bool) (tick : nat) (urls : list Item)
    (chunks : list (list Item)) : list Artifact * bool :=
  let outMain := path_join P sitemapOutputDir sitemapFilename in
  if (length chunks <=? 1)%nat then
    match urls with
    | [] => ([XmlFile outMain urls], false)
    | _ :: _ =>
        (XmlFile outMain urls
           :: (if generateGzip then [gzipOf sitemapOutputDir outMain] else []),
         true)
    end
  else
    let '(ws, es) :=
      writeXmlParts siteUrl publicDir sitemapOutputDir sitemapFilename
        generateGzip tick 0%nat chunks in
    match es with
    | None => (ws, false)
    | Some indexItems =>
        let sitemapIndexPath := path_join P sitemapOutputDir "sitemap-index.xml" in
        (ws ++ IndexFile sitemapIndexPath indexItems
            :: (if String.eqb (default EmptyString (env W !! "TEST_CORRUPT_SITEMAP_INDEX")) "true"
                then [CorruptedIndexFile sitemapIndexPath] else [])
            ++ (if generateGzip then [gzipOf sitemapOutputDir sitemapIndexPath] else []),
         true)
    end.

Fixpoint writeTxtParts (sitemapOutputDir txtFilename : string) (i : nat)
    (chunks : list (list Item)) : list Artifact :=
  match chunks with
  | [] => []
  | chunk :: rest =>
      let partName :=
        replaceExt txtFilename ".txt" ("-" +:+ pretty (S i) +:+ ".txt") in
      TxtFile (path_join P sitemapOutputDir partName) chunk
        :: writeTxtParts sitemapOutputDir txtFilename (S i) rest
  end.

Definition writeTxt (sitemapOutputDir sitemapFilename : string)
    (urls : list Item) (chunks : list (list Item)) : list Artifact :=
  let txtFilename := replaceExt sitemapFilename ".xml" ".txt" in
  if (length chunks <=? 1)%nat
  then [TxtFile (path_join P sitemapOutputDir txtFilename) urls]
  else writeTxtParts sitemapOutputDir txtFilename 0%nat chunks.

(** [run], up to the end of its generation block.  The blocks after it
    (validation, artifact upload, external validation) create no
    sitemap file.  Writes to disk are taken to succeed.  [fuel] bounds
    the chunk loop. *)
Definition run (fuel : nat) : option Outcome :=
  let allowAutodetect := isTrue (Js.orElse (getInput "allow_autodetect") "true") in
  let siteUrlInputRaw := getInput "site_url" in
  let publicDir0 := getInput "public_dir" in
  let publicDir : option string :=
    if allowAutodetect && negb (Js.truthy publicDir0)
    then findPublicDir W publicDir0 else Some publicDir0 in
  let siteUrl : option string :=
    if allowAutodetect && negb (Js.truthy siteUrlInputRaw)
    then inferSiteUrl W publicDir else Some siteUrlInputRaw in
  if negb (optTruthy siteUrl) then
    Some {| failures := [MissingSiteUrl]; artifacts := [] |}
  else if negb (optTruthy publicDir) then
    Some {| failures := [MissingPublicDir]; artifacts := [] |}
  else
  let siteUrl := default EmptyString siteUrl in
  let publicDir := default EmptyString publicDir in
  let sitemapOutputDir := Js.orElse (getInput "sitemap_output_dir") publicDir in
  let includePatterns :=
    listInput (Js.orElse (getInput "include_patterns") "**/*.html,**/*.htm") in
  let excludePatterns :=
    listInput (Js.orElse (getInput "exclude_patterns") "**/*.map") in
  let excludeUrls :=
    listInput (Js.orElse (getInput "exclude_urls")
                 "*/sitemap*.xml,*/sitemap*.txt,*/sitemap*.xml.gz") in
  let excludeExtensions := excludeExtensionsInput in
  let additionalUrls := listInput (getInput "additional_urls") in
  let lastmodStrategy := Js.orElse (getInput "lastmod_strategy") "git" in
  let changefreq :=
    if Js.truthy (getInput "changefreq") then Some (getInput "changefreq") else None in
  let priorityInput := getInput "priority" in
  if Js.truthy priorityInput
     && Js.outsideUnitInterval (parseFloat P priorityInput)
  then Some {| failures := [InvalidPriority priorityInput]; artifacts := [] |}
  else
  let priority := if Js.truthy priorityInput then Some priorityInput else None in
  let parseCanonical := isTrue (Js.orElse (getInput "parse_canonical") "true") in
  let discoverLinks := isTrue (Js.orElse (getInput "discover_links") "true") in
  let generateXmlSitemap :=
    resolveBooleanInput "generate_sitemap_xml" "generate_xml_sitemap" "true" in
  let generateTxtSitemap :=
    resolveBooleanInput "generate_sitemap_txt" "generate_txt_sitemap" "true" in
  let generateGzip :=
    resolveBooleanInput "generate_sitemap_gzip" "generate_gzip" "true" in
  let earlyStrictValidation :=
    isTrue (Js.orElse (getInput "strict_validation") "false") in
  let invalidAdditional :=
    List.filter (fun u => negb (Js.isHttpUrl u)) additionalUrls in
  let early :=
    if earlyStrictValidation && (0 <? length invalidAdditional)%nat
    then [InvalidAdditionalUrls (length invalidAdditional)] else [] in
  let sitemapFilename := Js.orElse (getInput "sitemap_filename") "sitemap.xml" in
  if negb (Js.isHttpUrl siteUrl) then
    Some {| failures := early ++ [SiteUrlScheme]; artifacts := [] |}
  else if negb (existsSync W publicDir) then
    Some {| failures := early ++ [PublicDirNotFound publicDir]; artifacts := [] |}
  else
  let options :=
    {| baseUrl := siteUrl; publicDir := publicDir;
       includePatterns := includePatterns; excludePatterns := excludePatterns;
       excludeExtensions := excludeExtensions; excludeUrls := excludeUrls;
       lastmodStrategy := lastmodStrategy;
       opt_changefreq := changefreq; opt_priority := priority;
       additionalUrls := additionalUrls;
       parseCanonical := parseCanonical; discoverLinks := discoverLinks |} in
  match buildUrls P W options
          ≫= preWriteFilter excludeUrls excludeExtensions with
  | None => Some {| failures := early ++ [Thrown]; artifacts := [] |}
  | Some urls =>
      chunks ← chunkUrls fuel urls getMaxUrlsPerSitemap;
      let tick := length (files W options) in
      let '(xmlFiles, ok) :=
        if generateXmlSitemap
        then writeXml siteUrl publicDir sitemapOutputDir sitemapFilename
               generateGzip tick urls chunks
        else ([], true) in
      if negb ok then
        Some {| failures := early ++ [Thrown]; artifacts := xmlFiles |}
      else
        Some {| failures := early;
                artifacts :=
                  xmlFiles
                  ++ (if generateTxtSitemap
                      then writeTxt sitemapOutputDir sitemapFilename urls chunks
                      else []) |}
  end.

End Run.

(** ** [src/lib/sitemap-validator.js] *)

Module Validator.

Inductive Severity : Type := info | warning | error.

(** The message templates of the validator, with the values they
    interpolate. *)
Inductive Message : Type :=
| InvalidXmlStructure
| ValidXmlFormat
| MissingNamespace
| MissingUrlTags
| MissingLocTags
| ExceedsUrlLimit (urlCount : Z) (maxUrls : option Z)
| InvalidLocUrls (count : Z)
| InvalidChangefreqValues
| InvalidPriorityValue
| ValidSitemapFormat
| InvalidTxtUrls (count : Z)
| ValidTxtFormat
| NoUrlsFound
| ContainsUrls (urlCount : Z).

Record Finding : Type := {
  type : Severity;
  message : Message
}.

(** [strict ? 'error' : 'warning'] *)
Definition graded (strict : bool) : Severity :=
  if strict then error else warning.

Definition VALID_CHANGEFREQ : list string :=
  ["always"; "hourly"; "daily"; "weekly"; "monthly"; "yearly"; "never"].

(** [n > max], false when [max] is [NaN]. *)
Definition gtNum (n : Z) (max : option Z) : bool :=
  match max with
  | Some m => m <? n
  | None => false
  end.

(** [/<tag[\s>]/i.test(s)] for a literal lower-case [open] = "<tag". *)
Fixpoint hasOpenTag (open s : string) : bool :=
  (Js.startsWithCI s open
   && match Js.dropChars (String.length open) s with
      | String c _ => Js.isSpace c || Ascii.eqb c ">"%char
      | EmptyString => false
      end)
  || match s with
     | EmptyString => false
     | String _ s' => hasOpenTag open s'
     end.

(** The matches of a global case-insensitive search for a literal:
    [(s.match(/lit/gi) || []).length].  [skip] counts the characters
    still covered by the previous match. *)
Fixpoint countMatches (lit s : string) (skip : nat) : Z :=
  match s with
  | EmptyString => 0
  | String _ s' =>
      match skip with
      | S k => countMatches lit s' k
      | O =>
          if Js.startsWithCI s lit
          then 1 + countMatches lit s' (String.length lit - 1)
          else countMatches lit s' 0
      end
  end.

Definition isLineTerminator (c : ascii) : bool :=
  Ascii.eqb c Js.LF || Ascii.eqb c Js.CR.

(** The lazy group [(.*?)] followed by the literal [close]: the number
    of characters the group takes, if the match succeeds. *)
Fixpoint lazyUntil (close s : string) : option nat :=
  if Js.startsWithCI s close then Some 0%nat
  else
    match s with
    | EmptyString => None
    | String c s' =>
        if isLineTerminator c then None else S <$> lazyUntil close s'
    end.

(** [s.match(/<tag>(.*?)<\/tag>/gi) || []] for literal lower-case
    [open] = "<tag>" and [close] = "</tag>". *)
Fixpoint matchTagged (open close s : string) (skip : nat) : list string :=
  match s with
  | EmptyString => []
  | String _ s' =>
      match skip with
      | S k => matchTagged open close s' k
      | O =>
          if Js.startsWithCI s open then
            match lazyUntil close (Js.dropChars (String.length open) s) with
            | Some n =>
                let len := (String.length open + n + String.length close)%nat in
                takeChars len s :: matchTagged open close s' (len - 1)
            | None => matchTagged open close s' 0
            end
          else matchTagged open close s' 0
      end
  end.

(** [t.replace(/<\/?tag>/gi, '')] *)
Fixpoint stripTags (open close s : string) (skip : nat) : string :=
  match s with
  | EmptyString => EmptyString
  | String c s' =>
      match skip with
      | S k => stripTags open close s' k
      | O =>
          if Js.startsWithCI s open
          then stripTags open close s' (String.length open - 1)
          else if Js.startsWithCI s close
          then stripTags open close s' (String.length close - 1)
          else String c (stripTags open close s' 0)
      end
  end.

Definition countWhere {A} (f : A -> bool) (l : list A) : Z :=
  Z.of_nat (length (List.filter f l)).

(** [!/^https?:\/\//i.test(url) || url.length >= 2048] *)
Definition invalidLoc (u : string) : bool :=
  negb (Js.isHttpUrl u) || (2048 <=? String.length u)%nat.

Section WithPlatform.
Context (P : Platform).

(** The values [validateXmlSitemap] computes from the document. *)
Definition hasXmlDeclaration (xmlContent : string) : bool :=
  Js.startsWith (Js.trim xmlContent) "<?xml".

Definition hasUrlsetOpen (xmlContent : string) : bool :=
  hasOpenTag "<urlset" xmlContent.

Definition hasUrlsetClose (xmlContent : string) : bool :=
  Js.includesCI xmlContent "</urlset>".

Definition hasNamespace (xmlContent : string) : bool :=
  Js.includes xmlContent
    ("xmlns=" +:+ String Js.DQUOTE "http://www.sitemaps.org/schemas/sitemap/0.9"
       +:+ String Js.DQUOTE EmptyString).

Definition hasUrlTags (xmlContent : string) : bool :=
  Js.includes xmlContent "<url>" && Js.includes xmlContent "</url>".

Definition hasLocTags (xmlContent : string) : bool :=
  Js.includes xmlContent "<loc>" && Js.includes xmlContent "</loc>".

Definition urlCount (xmlContent : string) : Z :=
  countMatches "<url>" xmlContent 0.

Definition locMatches (xmlContent : string) : list string :=
  matchTagged "<loc>" "</loc>" xmlContent 0.

Definition invalidLocCount (xmlContent : string) : Z :=
  countWhere (fun locTag => invalidLoc (stripTags "<loc>" "</loc>" locTag 0))
    (locMatches xmlContent).

Definition invalidChangefreq (xmlContent : string) : Z :=
  countWhere
    (fun freqTag =>
       negb (bool_decide
               (Js.trim (stripTags "<changefreq>" "</changefreq>" freqTag 0)
                  ∈ VALID_CHANGEFREQ)))
    (matchTagged "<changefreq>" "</changefreq>" xmlContent 0).

Definition invalidPriority (xmlContent : string) : Z :=
  countWhere
    (fun prTag =>
       Js.outsideUnitInterval
         (parseFloat P (Js.trim (stripTags "<priority>" "</priority>" prTag 0))))
    (matchTagged "<priority>" "</priority>" xmlContent 0).

Definition validateXmlSitemap (xmlContent : string) (strict : bool)
    (maxUrls : option Z) : list Finding :=
  [ if negb (hasXmlDeclaration xmlContent) || negb (hasUrlsetOpen xmlContent)
       || negb (hasUrlsetClose xmlContent)
    then {| type := graded strict; message := InvalidXmlStructure |}
    else {| type := info; message := ValidXmlFormat |} ]
  ++ (if negb (hasNamespace xmlContent)
      then [{| type := graded strict; message := MissingNamespace |}] else [])
  ++ (if negb (hasUrlTags xmlContent)
      then [{| type := graded strict; message := MissingUrlTags |}]
      else if negb (hasLocTags xmlContent)
      then [{| type := graded strict; message := MissingLocTags |}] else [])
  ++ (if gtNum (urlCount xmlContent) maxUrls
      then [{| type := graded strict;
               message := ExceedsUrlLimit (urlCount xmlContent) maxUrls |}]
      else [])
  ++ (if 0 <? invalidLocCount xmlContent
      then [{| type := warning;
               message := InvalidLocUrls (invalidLocCount xmlContent) |}]
      else [])
  ++ (if 0 <? invalidChangefreq xmlContent
      then [{| type := warning; message := InvalidChangefreqValues |}] else [])
  ++ (if 0 <? invalidPriority xmlContent
      then [{| type := warning; message := InvalidPriorityValue |}] else [])
  ++ (if hasNamespace xmlContent && hasUrlTags xmlContent
         && hasLocTags xmlContent
         && (0 <? length (locMatches xmlContent))%nat
      then [{| type := info; message := ValidSitemapFormat |}] else []).

End WithPlatform.

(** [s.split(/\r?\n/)]: a line ends at a line feed, together with the
    carriage return right before it when there is one. *)
Fixpoint splitLines (s : string) (cur : string) : list string :=
  match s with
  | EmptyString => [cur]
  | String c s' =>
      if Ascii.eqb c Js.LF then cur :: splitLines s' EmptyString
      else
        match s' with
        | String c' s'' =>
            if Ascii.eqb c Js.CR && Ascii.eqb c' Js.LF
            then cur :: splitLines s'' EmptyString
            else splitLines s' (cur +:+ String c EmptyString)
        | EmptyString => splitLines s' (cur +:+ String c EmptyString)
        end
  end.

(** [content.split(/\r?\n/).filter(Boolean)] *)
Definition txtLines (content : string) : list string :=
  List.filter Js.truthy (splitLines content EmptyString).

(** [/[\r\n]/.test(line)] *)
Fixpoint hasNewline (line : string) : bool :=
  match line with
  | EmptyString => false
  | String c s' => isLineTerminator c || hasNewline s'
  end.

(** The test of the loop over the lines:
    [!/^https?:\/\//i.test(line) || /[\r\n]/.test(line)]. *)
Definition invalidLine (line : string) : bool :=
  negb (Js.isHttpUrl line) || hasNewline line.

Definition validateTxtSitemap (txtContent : string) (strict : bool)
    (maxUrls : option Z) : list Finding :=
  let lines := txtLines txtContent in
  let urlCount := Z.of_nat (length lines) in
  let invalid := countWhere invalidLine lines in
  (if gtNum urlCount maxUrls
   then [{| type := graded strict; message := ExceedsUrlLimit urlCount maxUrls |}]
   else [])
  ++ [ if 0 <? invalid
       then {| type := graded strict; message := InvalidTxtUrls invalid |}
       else {| type := info; message := ValidTxtFormat |} ].

(** The per-file report that the external validation fills in. *)
Record FileResult : Type := {
  errors : list Message;
  warnings : list Message;
  infos : list Message
}.

Definition report (strict : bool) (msg : Message) (r : FileResult) : FileResult :=
  if strict
  then {| errors := errors r ++ [msg]; warnings := warnings r; infos := infos r |}
  else {| errors := errors r; warnings := warnings r ++ [msg]; infos := infos r |}.

Definition pushWarning (msg : Message) (r : FileResult) : FileResult :=
  {| errors := errors r; warnings := warnings r ++ [msg]; infos := infos r |}.

Definition pushInfo (msg : Message) (r : FileResult) : FileResult :=
  {| errors := errors r; warnings := warnings r; infos := infos r ++ [msg] |}.

Definition validateTxtFileContent (content : string) (result : FileResult)
    (strict : bool) (maxUrls : option Z) : FileResult :=
  let lines := txtLines content in
  let urlCount := Z.of_nat (length lines) in
  if urlCount =? 0 then pushWarning NoUrlsFound result
  else
    let result :=
      if gtNum urlCount maxUrls
      then report strict (ExceedsUrlLimit urlCount maxUrls) result
      else pushInfo (ContainsUrls urlCount) result in
    let invalidUrls := countWhere invalidLine lines in
    if 0 <? invalidUrls
    then report strict (InvalidTxtUrls invalidUrls) result
    else pushInfo ValidTxtFormat result.

End Validator.

(** ** A reference platform

    Executable models of the library functions on the inputs the worked
    examples below use: POSIX paths, [http(s)] URLs whose path is made of
    unreserved characters, ASCII collation, and the regular expressions
    built from literals, [.] and [*].  A field answers [None] outside the
    fragment it covers. *)

Module Reference.

(** [s.split('/')] *)
Fixpoint splitSlash (s : string) (cur : string) : list string :=
  match s with
  | EmptyString => [cur]
  | String c s' =>
      if Ascii.eqb c "/"%char then cur :: splitSlash s' EmptyString
      else splitSlash s' (cur +:+ String c EmptyString)
  end.

Fixpoint joinSlash (l : list string) : string :=
  match l with
  | [] => EmptyString
  | [x] => x
  | x :: l' => x +:+ "/" +:+ joinSlash l'
  end.

(** Dot segments of a path are resolved on a stack (kept reversed);
    [aboveRoot] keeps the [..] that climb above a relative start. *)
Fixpoint normalizeSegments (aboveRoot : bool) (segs stack : list string)
  : list string :=
  match segs with
  | [] => rev stack
  | seg :: rest =>
      if String.eqb seg EmptyString || String.eqb seg "."
      then normalizeSegments aboveRoot rest stack
      else if String.eqb seg ".." then
        match stack with
        | top :: stack' =>
            if String.eqb top ".."
            then normalizeSegments aboveRoot rest (seg :: stack)
            else normalizeSegments aboveRoot rest stack'
        | [] =>
            normalizeSegments aboveRoot rest (if aboveRoot then [seg] else [])
        end
      else normalizeSegments aboveRoot rest (seg :: stack)
  end.

(** [path.posix.normalize] *)
Definition normalize (p : string) : string :=
  match p with
  | EmptyString => "."
  | _ =>
      let isAbsolute := Js.startsWith p "/" in
      let trailing := Js.endsWith p "/" in
      let body :=
        joinSlash (normalizeSegments (negb isAbsolute)
                     (splitSlash p EmptyString) []) in
      let body :=
        if Js.truthy body
        then (if trailing then body +:+ "/" else body)
        else (if isAbsolute then EmptyString else if trailing then "./" else ".") in
      if isAbsolute then "/" +:+ body else body
  end.

(** [path.posix.join(a, b)] *)
Definition join (a b : string) : string :=
  if Js.truthy a
  then (if Js.truthy b then normalize (a +:+ "/" +:+ b) else normalize a)
  else normalize b.

(** The working directory of the reference process. *)
Definition cwd : string := "/home/runner/work".

(** The segments of [path.posix.resolve(p)]. *)
Definition resolveSegments (p : string) : list string :=
  normalizeSegments false
    (splitSlash (if Js.startsWith p "/" then p else cwd +:+ "/" +:+ p)
       EmptyString) [].

Fixpoint dropCommon (a b : list string) : list string * list string :=
  match a, b with
  | x :: a', y :: b' => if String.eqb x y then dropCommon a' b' else (a, b)
  | _, _ => (a, b)
  end.

(** [path.posix.relative(from, to)] *)
Definition relative (from to : string) : string :=
  let '(up, down) := dropCommon (resolveSegments from) (resolveSegments to) in
  joinSlash (((fun _ => "..") <$> up) ++ down).

Fixpoint lastNonEmpty (l : list string) (acc : string) : string :=
  match l with
  | [] => acc
  | x :: l' => lastNonEmpty l' (if Js.truthy x then x else acc)
  end.

(** [path.posix.basename(p)] *)
Definition basename (p : string) : string :=
  lastNonEmpty (splitSlash p EmptyString) EmptyString.

(** The suffix of [s] from its last dot on, when the dot is not the
    first character. *)
Fixpoint fromLastDot (first : bool) (s : string) : string :=
  match s with
  | EmptyString => EmptyString
  | String c s' =>
      match fromLastDot false s' with
      | EmptyString => if Ascii.eqb c "."%char && negb first then s else EmptyString
      | e => e
      end
  end.

(** [path.posix.extname(p)] *)
Definition extname (p : string) : string :=
  let b := basename p in
  if String.eqb b ".." then EmptyString else fromLastDot true b.

(** [path.posix.dirname(p)] *)
Definition dirname (p : string) : string :=
  let segs := List.filter Js.truthy (splitSlash p EmptyString) in
  let parent := joinSlash (take (length segs - 1) segs) in
  if Js.startsWith p "/" then "/" +:+ parent
  else if Js.truthy parent then parent else ".".

(** The model of [path.win32.relative] for inputs written with
    backslashes; drive letters are ordinary segments here, and segments
    are compared as written, where Node compares them without regard
    to case. *)
Definition win32Relative (from to : string) : string :=
  relative (Js.backslashesToSlashes from) (Js.backslashesToSlashes to).

(** Characters that a URL path carries unchanged and that start
    neither a query nor a fragment. *)
Definition isPathChar (c : ascii) : bool :=
  let n := nat_of_ascii c in
  Js.isLetter c || ((48 <=? n) && (n <=? 57))%nat
  || bool_decide (c ∈ ["-"; "."; "_"; "~"; "/"; "@"; ":"; "+"; ","; "="]%char).

Fixpoint allChars (f : ascii -> bool) (s : string) : bool :=
  match s with
  | EmptyString => true
  | String c s' => f c && allChars f s'
  end.

Definition isHostChar (c : ascii) : bool :=
  let n := nat_of_ascii c in
  Js.isLetter c || ((48 <=? n) && (n <=? 57))%nat
  || Ascii.eqb c "-"%char || Ascii.eqb c "."%char.

(** The origin of an [http(s)] URL and what follows it. *)
Definition splitOrigin (u : string) : option (string * string) :=
  let '(scheme, rest) :=
    if Js.startsWithCI u "https://" then ("https://", Js.dropChars 8 u)
    else if Js.startsWithCI u "http://" then ("http://", Js.dropChars 7 u)
    else (EmptyString, u) in
  if negb (Js.truthy scheme) then None
  else
    match splitSlash rest EmptyString with
    | host :: segs =>
        if Js.truthy host && allChars isHostChar host
        then Some (scheme +:+ Js.toLowerCase host,
                   match segs with
                   | [] => EmptyString
                   | _ => "/" +:+ joinSlash segs
                   end)
        else None
    | [] => None
    end.

(** Dot-segment removal of the URL parser: a final [.] or [..] leaves
    a trailing slash. *)
Fixpoint urlSegments (segs stack : list string) : list string :=
  match segs with
  | [] => rev stack
  | seg :: rest =>
      let final := match rest with [] => true | _ => false end in
      if String.eqb seg ".." then
        urlSegments rest
          ((if final then [EmptyString] else []) ++ tail stack)
      else if String.eqb seg "." then
        urlSegments rest ((if final then [EmptyString] else []) ++ stack)
      else urlSegments rest (seg :: stack)
  end.

Definition urlPath (p : string) : string :=
  "/" +:+ joinSlash (urlSegments (splitSlash (Js.stripLeadingSlash p) EmptyString) []).

(** The part of a path up to its last slash. *)
Fixpoint uptoLastSlash (s : string) : string :=
  match s with
  | EmptyString => EmptyString
  | String c s' =>
      match uptoLastSlash s' with
      | EmptyString => if Ascii.eqb c "/"%char then "/" else EmptyString
      | t => String c t
      end
  end.

(** [new URL(rel, base).toString()] for a [rel] that is a path: taken
    from the root when it starts with a slash, else from the directory
    of the path of [base].  The model is partial: it covers a base made
    of a scheme, a host name and a path, and characters a URL path
    carries unchanged.  Outside of that (a port, user information, a
    query, a fragment, a character the parser would percent-encode) it
    answers [None], where the constructor may well accept the input. *)
Definition resolveUrl (rel base : string) : option string :=
  '(origin, basePath) ← splitOrigin base;
  if negb (Js.startsWith rel "//") && allChars isPathChar rel
     && allChars isPathChar basePath
  then
    Some (origin
            +:+ urlPath (if Js.startsWith rel "/" then rel
                         else Js.orElse (uptoLastSlash basePath) "/" +:+ rel))
  else None.

(** [new URL(u).pathname] *)
Definition pathname (u : string) : option string :=
  '(_, p) ← splitOrigin u;
  if allChars isPathChar p then Some (urlPath p) else None.

(** The order of the printable ASCII characters in the root collation:
    white space, punctuation, symbols, digits, then the letters with
    both cases of a letter side by side. *)
Definition collationOrder : string :=
  String Js.TAB (String Js.LF (String Js.VT (String Js.FF (String Js.CR
    (" _-,;:!?.'" +:+ String Js.DQUOTE "()[]{}@*/\&#%`^+<=>|~$0123456789abcdefghijklmnopqrstuvwxyz"))))).

Fixpoint indexOf (c : ascii) (s : string) : option nat :=
  match s with
  | EmptyString => None
  | String d s' => if Ascii.eqb c d then Some 0%nat else S <$> indexOf c s'
  end.

(** Primary weight of a character; control characters have none. *)
Definition primary (c : ascii) : option nat :=
  indexOf (Js.lowerChar c) collationOrder.

Fixpoint weights (s : string) : list (nat * bool) :=
  match s with
  | EmptyString => []
  | String c s' =>
      match primary c with
      | Some w => (w, Js.isUpper c) :: weights s'
      | None => weights s'
      end
  end.

Fixpoint compareLex (a b : list nat) : Z :=
  match a, b with
  | [], [] => 0
  | [], _ :: _ => -1
  | _ :: _, [] => 1
  | x :: a', y :: b' =>
      if (x <? y)%nat then -1 else if (y <? x)%nat then 1 else compareLex a' b'
  end.

(** [a.localeCompare(b)]: primary weights first, then case, lower
    before upper. *)
Definition compareStrings (a b : string) : Z :=
  let wa := weights a in
  let wb := weights b in
  match compareLex (fst <$> wa) (fst <$> wb) with
  | 0 => compareLex ((fun x => Nat.b2n (snd x)) <$> wa)
                    ((fun x => Nat.b2n (snd x)) <$> wb)
  | r => r
  end.

Inductive Atom : Type := AnyChar | Lit (c : ascii).

Definition atomMatches (a : Atom) (c : ascii) : bool :=
  match a with
  | AnyChar => negb (Validator.isLineTerminator c)
  | Lit d => Ascii.eqb c d
  end.

Definition isMeta (c : ascii) : bool :=
  bool_decide (c ∈ ["\"; "^"; "$"; "|"; "?"; "*"; "+"; "("; ")"; "["; "]"; "{"; "}"]%char).

(** The atoms of a pattern with the star that may follow each. *)
Fixpoint parseAtoms (s : string) : option (list (Atom * bool)) :=
  match s with
  | EmptyString => Some []
  | String c s' =>
      if isMeta c then None
      else
        let a := if Ascii.eqb c "."%char then AnyChar else Lit c in
        match s' with
        | String "*"%char s'' => cons (a, true) <$> parseAtoms s''
        | _ => cons (a, false) <$> parseAtoms s'
        end
  end.

Fixpoint matchAtoms (atoms : list (Atom * bool)) (s : string) : bool :=
  match atoms with
  | [] => negb (Js.truthy s)
  | (a, false) :: rest =>
      match s with
      | String c s' => atomMatches a c && matchAtoms rest s'
      | EmptyString => false
      end
  | (a, true) :: rest =>
      (fix star (s : string) : bool :=
         matchAtoms rest s
         || match s with
            | String c s' => atomMatches a c && star s'
            | EmptyString => false
            end) s
  end.

(** [new RegExp(source).test(s)] for a source anchored at both ends. *)
Definition regExpTest (source s : string) : option bool :=
  if Js.startsWith source "^" && Js.endsWith source "$"
     && (2 <=? String.length source)%nat
  then
    atoms ← parseAtoms (takeChars (String.length source - 2) (Js.dropChars 1 source));
    Some (matchAtoms atoms s)
  else None.

Fixpoint digitsOf (s : string) (acc : Z) (n : nat) : Z * nat * string :=
  match s with
  | EmptyString => (acc, n, s)
  | String c s' =>
      match Js.digitOf c with
      | Some d => digitsOf s' (10 * acc + d) (S n)
      | None => (acc, n, s)
      end
  end.

(** The double nearest to a decimal value, as far as comparing it with
    0 and 1 can tell: values that round to one of the two are sent
    there. *)
Definition roundNearUnit (q : Q) : Q :=
  if Qle_bool 1%Q q && Qle_bool q (1 + Qpower 2 (-53))%Q then 1%Q
  else if Qle_bool (- Qpower 2 (-1075))%Q q && Qle_bool q 0%Q then 0%Q
  else q.

(** [parseFloat(s)] *)
Definition parseFloatRef (s : string) : Js.Number :=
  let t := Js.trimStart s in
  let '(neg, body) :=
    match t with
    | String "-"%char r => (true, r)
    | String "+"%char r => (false, r)
    | _ => (false, t)
    end in
  if Js.startsWith body "Infinity" then Js.Infinite neg
  else
    let '(ip, ni, r1) := digitsOf body 0 0%nat in
    let '(fp, nf, r2) :=
      match r1 with
      | String "."%char r => digitsOf r 0 0%nat
      | _ => (0, 0%nat, r1)
      end in
    if ((ni + nf)%nat =? 0)%nat then Js.NaN
    else
      let e :=
        match r2 with
        | String c r =>
            if Ascii.eqb (Js.lowerChar c) "e"%char then
              let '(eneg, r) :=
                match r with
                | String "-"%char r' => (true, r')
                | String "+"%char r' => (false, r')
                | _ => (false, r)
                end in
              let '(ev, ne, _) := digitsOf r 0 0%nat in
              if (ne =? 0)%nat then 0 else if eneg then - ev else ev
            else 0
        | EmptyString => 0
        end in
      let m := (inject_Z ip + inject_Z fp / Qpower 10 (Z.of_nat nf))%Q in
      let v := (m * Qpower 10 e)%Q in
      Js.Finite (roundNearUnit (if neg then Qopp v else v)).

Definition platform : Platform := {|
  URL_resolve := resolveUrl;
  URL_pathname := pathname;
  path_join := join;
  path_relative := relative;
  path_win32_relative := win32Relative;
  path_extname := extname;
  path_basename := basename;
  path_dirname := dirname;
  localeCompare := compareStrings;
  RegExp_test := regExpTest;
  parseFloat := parseFloatRef
|}.

End Reference.

(** ** The specification's reading of some operations *)

(** Deduplication as the specification words it: an item stays when no
    item before it in merge order has the same URL.  [before] holds the
    URLs of the items already passed. *)
Fixpoint firstOccurrencesFrom (before : list string) (items : list Item)
  : list Item :=
  match items with
  | [] => []
  | item :: rest =>
      (if bool_decide (url item ∈ before) then [] else [item])
      ++ firstOccurrencesFrom (before ++ [url item]) rest
  end.

Definition firstOccurrences (items : list Item) : list Item :=
  firstOccurrencesFrom [] items.

(** An exclusion entry removes a URL: by equality, or by the regular
    expression the entry is turned into when it has a wildcard. *)
Definition excludedBy (P : Platform) (entries : list string) (u : string) : Prop :=
  exists entry,
    entry ∈ entries
    /\ (u = entry
        \/ (hasWildcard entry = true
            /\ RegExp_test P (excludeRegex entry) u = Some true)).

(** Wildcard matching as the specification words it: [*] stands for zero
    or more characters, [?] for exactly one, every other character for
    itself. *)
Fixpoint globMatch (pattern : string) (s : string) : bool :=
  match pattern with
  | EmptyString => negb (Js.truthy s)
  | String p pattern' =>
      if Ascii.eqb p "*"%char then
        (fix star (s : string) : bool :=
           globMatch pattern' s
           || match s with
              | String _ s' => star s'
              | EmptyString => false
              end) s
      else
        match s with
        | String c s' =>
            (Ascii.eqb p "?"%char || Ascii.eqb p c) && globMatch pattern' s'
        | EmptyString => false
        end
  end.

Definition globExcluded (entries : list string) (u : string) : bool :=
  existsb (fun entry => String.eqb u entry || (hasWildcard entry && globMatch entry u))
    entries.

(** The characters of an entry that mean themselves in a regular
    expression. *)
Definition literalChar (c : ascii) : bool :=
  negb (Reference.isMeta c) && negb (Ascii.eqb c "."%char).

(** Entries made of wildcards and of such characters only. *)
Fixpoint plainEntry (entry : string) : bool :=
  match entry with
  | EmptyString => true
  | String c entry' =>
      (Ascii.eqb c "*"%char || Ascii.eqb c "?"%char || literalChar c)
      && plainEntry entry'
  end.

(** Strings without a line terminator. *)
Definition singleLine (s : string) : bool :=
  Reference.allChars (fun c => negb (Validator.isLineTerminator c)) s.

(** The atoms the reference parser reads from a translated entry. *)
Fixpoint atomsOf (entry : string) : list (Reference.Atom * bool) :=
  match entry with
  | EmptyString => []
  | String c entry' =>
      (if Ascii.eqb c "*"%char then (Reference.AnyChar, true)
       else if Ascii.eqb c "?"%char then (Reference.AnyChar, false)
       else (Reference.Lit c, false)) :: atomsOf entry'
  end.

(** Plain ordering of strings: code unit by code unit. *)
Definition plainLe (a b : string) : bool :=
  match String.compare a b with
  | Gt => false
  | _ => true
  end.

(** A list is ascending for [le] when each element is below its
    successor. *)
Definition ascending {A} (le : A -> A -> Prop) (l : list A) : Prop :=
  forall i a b, l !! i = Some a -> l !! S i = Some b -> le a b.

(** A comparator is usable for sorting when, of two values, one is not
    after the other. *)
Definition connex {A} (cmp : A -> A -> Z) : Prop :=
  forall a b, cmp a b <= 0 \/ cmp b a <= 0.

(** The canonical URL as the specification words it: a relative [href]
    resolved against the directory that contains the HTML file. *)
Definition canonicalAgainstContainingDir (P : Platform) (o : Options)
    (fullFsPath href : string) : option string :=
  normalizePathToUrl P (baseUrl o) (publicDir o)
    (path_join P (path_dirname P fullFsPath) href).

(** The number of items that came out of the discovery set: what the
    merge appended after the walked and the manual items. *)
Definition discoveredItemsRetained (P : Platform) (W : World) (o : Options)
  : option nat :=
  '(walked, _) ← walk P W o (getMaxDiscoveredLinks W);
  merged ← collectItems P W o;
  Some (length merged - length (addManual o walked))%nat.

(** How many more items the merge may append once the collection holds
    [n] items of which [added] came from the discovery set: what the
    cap on the collection leaves and what the cap on discovered items
    leaves, whichever is less; [None] when neither cap is a number. *)
Definition mergeRoom (capTotal capDiscovered : option Z) (n : nat) (added : Z)
  : option nat :=
  match capTotal, capDiscovered with
  | Some T, Some K => Some (Z.to_nat (Z.min (T - Z.of_nat n) (K - added)))
  | Some T, None => Some (Z.to_nat (T - Z.of_nat n))
  | None, Some K => Some (Z.to_nat (K - added))
  | None, None => None
  end.

(** The first [room] elements of a list; all of them without a bound. *)
Definition takeUpTo {A} (room : option nat) (l : list A) : list A :=
  match room with
  | Some r => take r l
  | None => l
  end.

(** The discovered links that become items, in the words of the
    specification: the URLs of the discovery set that no walked or
    manual item has, in the order of the set, as many as the two caps
    leave room for; none when link discovery is off. *)
Definition discoveredToAdd (o : Options) (capTotal capDiscovered : option Z)
    (base : list Item) (discoveredSet : list string) : list string :=
  if discoverLinks o
  then takeUpTo (mergeRoom capTotal capDiscovered (length base) 0)
         (List.filter (fun u => negb (hasUrl base u)) discoveredSet)
  else [].

(** ** Example sites *)

Module Example.

Definition site : string := "/site".

Definition stamp : string := "2025-01-01T00:00:00.000Z".

Definition noLinks : Dom := {| canonicalHref := None; anchorHrefs := [] |}.

Fixpoint pageAt (p : string) (pages : list (string * Dom)) : Dom :=
  match pages with
  | [] => noLinks
  | (q, d) :: rest => if String.eqb p q then d else pageAt p rest
  end.

(** A site under [/site]: [walked] is what the glob returns, [others]
    are further files on disk, [pages] gives the documents that are
    not empty. *)
Definition world (walked others : list string) (pages : list (string * Dom))
    (vars : list (string * string)) : World := {|
  glob_sync := fun _ cwd _ => if String.eqb cwd site then walked else [];
  statSync := fun p =>
    if bool_decide (p ∈ ((fun f => site +:+ "/" +:+ f) <$> walked) ++ others)
    then Some {| mtimeISO := stamp; isFile := true |}
    else if String.eqb p site
    then Some {| mtimeISO := stamp; isFile := false |}
    else None;
  existsSync := fun p =>
    bool_decide (p ∈ site :: ((fun f => site +:+ "/" +:+ f) <$> walked) ++ others);
  readHtml := fun p => Some (pageAt p pages);
  getGitLastCommitISO := fun _ => None;
  nowISO := fun _ => stamp;
  findPublicDir := fun _ => None;
  inferSiteUrl := fun _ => None;
  env := list_to_map vars
|}.

Definition options (excluded additional : list string) : Options := {|
  baseUrl := "https://example.com";
  publicDir := site;
  includePatterns := [];
  excludePatterns := [];
  excludeExtensions := [];
  excludeUrls := excluded;
  lastmodStrategy := "none";
  opt_changefreq := None;
  opt_priority := None;
  additionalUrls := additional;
  parseCanonical := true;
  discoverLinks := true
|}.

Definition plainItem (u : string) : Item :=
  {| url := u; lastmod := None; changefreq := None; priority := None |}.

End Example.

(** ** Checks of the XML validator *)

(** How a finding is classified: by the validation policy, or as a
    warning whatever the policy. *)
Inductive Grading : Type := ByPolicy | Advisory.

Definition severity (strict : bool) (g : Grading) : Validator.Severity :=
  match g with
  | ByPolicy => Validator.graded strict
  | Advisory => Validator.warning
  end.

(** The checks of [validateXmlSitemap] that a document fails, with the
    message each one reports. *)
Inductive Fails (P : Platform) (xml : string) (maxUrls : option Z)
  : Validator.Message -> Grading -> Prop :=
| fails_structure :
    Validator.hasXmlDeclaration xml && Validator.hasUrlsetOpen xml
      && Validator.hasUrlsetClose xml = false ->
    Fails P xml maxUrls Validator.InvalidXmlStructure ByPolicy
| fails_namespace :
    Validator.hasNamespace xml = false ->
    Fails P xml maxUrls Validator.MissingNamespace ByPolicy
| fails_url_tags :
    Validator.hasUrlTags xml = false ->
    Fails P xml maxUrls Validator.MissingUrlTags ByPolicy
| fails_loc_tags :
    Validator.hasUrlTags xml = true ->
    Validator.hasLocTags xml = false ->
    Fails P xml maxUrls Validator.MissingLocTags ByPolicy
| fails_url_limit :
    Validator.gtNum (Validator.urlCount xml) maxUrls = true ->
    Fails P xml maxUrls
      (Validator.ExceedsUrlLimit (Validator.urlCount xml) maxUrls) ByPolicy
| fails_loc_values :
    0 < Validator.invalidLocCount xml ->
    Fails P xml maxUrls
      (Validator.InvalidLocUrls (Validator.invalidLocCount xml)) Advisory
| fails_changefreq_values :
    0 < Validator.invalidChangefreq xml ->
    Fails P xml maxUrls Validator.InvalidChangefreqValues Advisory
| fails_priority_values :
    0 < Validator.invalidPriority P xml ->
    Fails P xml maxUrls Validator.InvalidPriorityValue Advisory.

(** [s] holds the character [c]. *)
Fixpoint containsChar (c : ascii) (s : string) : bool :=
  match s with
  | EmptyString => false
  | String d s' => Ascii.eqb d c || containsChar c s'
  end.

Module Samples.

Definition quoted (s : string) : string :=
  String Js.DQUOTE s +:+ String Js.DQUOTE EmptyString.

(** A well-formed sitemap whose only entry has a location that is not
    an http(s) URL, an unknown change frequency and a priority above
    one. *)
Definition badValuesXml : string :=
  "<?xml version=" +:+ quoted "1.0" +:+ " encoding=" +:+ quoted "UTF-8" +:+ "?>"
  +:+ "<urlset xmlns=" +:+ quoted "http://www.sitemaps.org/schemas/sitemap/0.9" +:+ ">"
  +:+ "<url><loc>ftp://bad.example.com/</loc>"
  +:+ "<changefreq>sometimes</changefreq><priority>1.5</priority></url>"
  +:+ "</urlset>".

(** One line that starts with [https://] and holds a carriage return
    that no line feed follows. *)
Definition strayReturnTxt : string :=
  "https://example.com/a" +:+ String Js.CR "b".

End Samples.

(** ** Statements of the specification that the code does not satisfy

    Each is written from the words of the specification; the examples
    further down show an input on which it fails. *)

(** Exclusion by wildcard matching: an item is removed exactly when an
    entry equals its URL or an entry with a wildcard matches it. *)
Definition ExclusionIsWildcardMatching (P : Platform) (W : World) (o : Options)
  : Prop :=
  forall merged final,
    collectItems P W o = Some merged ->
    buildUrls P W o = Some final ->
    forall item,
      item ∈ removeDuplicates merged ->
      (item ∉ final <-> globExcluded (excludeUrls o) (url item) = true).

(** A relative canonical link resolves against the directory of the
    file that declares it. *)
Definition CanonicalResolvesInContainingDir (P : Platform) (W : World)
    (o : Options) : Prop :=
  forall cap n f items ds stat root href,
    parseCanonical o = true ->
    isHtmlExt (Js.toLowerCase (path_extname P f)) = true ->
    statSync W (path_join P (publicDir o) f) = Some stat ->
    readHtml W (path_join P (publicDir o) f) = Some root ->
    canonicalHref root = Some href ->
    Js.truthy href = true ->
    Js.isHttpUrl href = false ->
    exists item ds',
      walkFile P W o cap n f (items, ds) = Some (items ++ [item], ds')
      /\ Some (url item)
         = canonicalAgainstContainingDir P o (path_join P (publicDir o) f) href.

(** With more discoverable links than the cap, exactly as many
    discovered items as the cap are retained. *)
Definition RetainsExactlyTheCap (P : Platform) (W : World) (o : Options) : Prop :=
  forall K walked allLinks,
    getMaxDiscoveredLinks W = Some K ->
    walk P W o None = Some (walked, allLinks) ->
    K < Z.of_nat (length allLinks) ->
    discoveredItemsRetained P W o = Some (Z.to_nat K).

(** The result is ascending in the plain order of strings. *)
Definition SortedInPlainOrder (P : Platform) (W : World) (o : Options) : Prop :=
  forall final,
    buildUrls P W o = Some final ->
    ascending (fun a b => plainLe (url a) (url b) = true) final.

(** Every failing check is reported at the severity the policy sets. *)
Definition EveryCheckGradedByPolicy (P : Platform) (xml : string)
    (strict : bool) (maxUrls : option Z) : Prop :=
  forall msg g,
    Fails P xml maxUrls msg g ->
    {| Validator.type := Validator.graded strict; Validator.message := msg |}
      ∈ Validator.validateXmlSitemap P xml strict maxUrls.

(** A line is invalid exactly when it does not start with
    [http://] or [https://]. *)
Definition InvalidIffNotHttp (content : string) : Prop :=
  forall line,
    line ∈ Validator.txtLines content ->
    Validator.invalidLine line = negb (Js.isHttpUrl line).

(** ** Worlds of the examples *)

Module Worlds.
Import Example.

(** Two pages that link to each other and to a document, with two
    manual URLs of which one repeats a page. *)
Definition linked : World :=
  world ["index.html"; "about.html"] ["/site/doc.pdf"]
    [("/site/index.html",
      {| canonicalHref := Some "https://example.com/";
         anchorHrefs := ["/about.html"; "/doc.pdf"; "#top"; "https://other.example/"] |});
     ("/site/about.html",
      {| canonicalHref := None; anchorHrefs := ["/index.html"; "/missing.html"] |})]
    [].

Definition linkedOptions : Options :=
  options [] ["https://example.com/about.html"; "https://example.com/extra"].

(** A page in a subdirectory with a relative canonical link. *)
Definition nested : World :=
  world ["blog/post.html"] []
    [("/site/blog/post.html",
      {| canonicalHref := Some "other.html"; anchorHrefs := [] |})]
    [].

(** Three files, one of them named [aXhtml]. *)
Definition dotted : World := world ["aXhtml"; "a.html"; "b.html"] [] [] [].

(** Two pages whose names differ in case. *)
Definition mixedCase : World := world ["B.html"; "a.html"] [] [] [].

Definition threeLinks : Dom :=
  {| canonicalHref := None;
     anchorHrefs := ["/p-0.html"; "/p-1.html"; "/p-2.html"] |}.

(** One walked page that links to three files; discovery is capped at
    two links, the collection at two URLs. *)
Definition capped : World :=
  world ["index.html"] ["/site/p-0.html"; "/site/p-1.html"; "/site/p-2.html"]
    [("/site/index.html", threeLinks)]
    [("TEST_MAX_DISCOVERED_LINKS", "2"); ("TEST_MAX_TOTAL_URLS", "2")].

(** The same page and links with discovery capped at two links and the
    default cap on the collection. *)
Definition roomy : World :=
  world ["index.html"] ["/site/p-0.html"; "/site/p-1.html"; "/site/p-2.html"]
    [("/site/index.html", threeLinks)]
    [("TEST_MAX_DISCOVERED_LINKS", "2")].

(** Three walked pages, the first linking to the other two; discovery
    is capped at one link. *)
Definition selfLinked : World :=
  world ["index.html"; "about.html"; "contact.html"] []
    [("/site/index.html",
      {| canonicalHref := None; anchorHrefs := ["/about.html"; "/contact.html"] |})]
    [("TEST_MAX_DISCOVERED_LINKS", "1")].

(** Twelve pages and five URLs per sitemap file. *)
Definition twelve : World :=
  world ((fun n => "p" +:+ pretty n +:+ ".html") <$> seq 10 12) [] []
    [("TEST_MAX_URLS_PER_SITEMAP", "5")].

Definition inputs (priority : string) : gmap string string :=
  list_to_map
    [("site_url", "https://example.com"); ("public_dir", site);
     ("lastmod_strategy", "none"); ("priority", priority)].

End Worlds.

(** * Properties *)

Import Example Worlds Samples.

(** ** Sorting *)

Section Sort.
Context {A : Type} (cmp : A -> A -> Z).

Lemma sortInsert_perm x l : Js.sortInsert cmp x l ≡ₚ x :: l.
Proof.
  induction l as [|y l IH]; cbn; [done|].
  destruct (cmp x y <=? 0); [done|].
  rewrite IH. apply perm_swap.
Qed.

Lemma sort_perm l : Js.sort cmp l ≡ₚ l.
Proof.
  induction l as [|x l IH]; cbn; [done|].
  rewrite sortInsert_perm. by constructor.
Qed.

Lemma sortInsert_sorted x l :
  connex cmp ->
  Sorted (fun a b => cmp a b <= 0) l ->
  Sorted (fun a b => cmp a b <= 0) (Js.sortInsert cmp x l).
Proof.
  intros Hc. induction 1 as [|y l Hs IH Hhd]; cbn.
  - repeat constructor.
  - destruct (Z.leb_spec (cmp x y) 0) as [Hle|Hgt].
    + constructor; [by constructor|by constructor].
    + constructor; [done|].
      destruct l as [|z l]; cbn.
      * constructor. destruct (Hc x y); lia.
      * inversion Hhd; subst.
        destruct (cmp x z <=? 0); constructor; [|done].
        destruct (Hc x y); lia.
Qed.

Lemma sort_sorted l :
  connex cmp -> Sorted (fun a b => cmp a b <= 0) (Js.sort cmp l).
Proof.
  intros Hc. induction l as [|x l IH]; cbn; [constructor|].
  by apply sortInsert_sorted.
Qed.

Lemma Sorted_ascending (R : A -> A -> Prop) l : Sorted R l -> ascending R l.
Proof.
  induction 1 as [|x l Hs IH Hhd]; intros i a b Ha Hb.
  - by rewrite lookup_nil in Ha.
  - destruct i as [|i]; cbn in *.
    + inversion Ha; subst a. destruct l as [|y l]; [done|].
      cbn in Hb. inversion Hb; subst b. by inversion Hhd.
    + by apply (IH i).
Qed.
End Sort.

(** ** Duplicates *)

Lemma dedupLoop_spec rest : forall seenUrls uniqueItems before,
  (forall u, u ∈ seenUrls <-> u ∈ before) ->
  dedupLoop rest seenUrls uniqueItems
  = uniqueItems ++ firstOccurrencesFrom before rest.
Proof.
  induction rest as [|item rest IH]; intros seen acc before Hseen; cbn.
  - by rewrite app_nil_r.
  - rewrite (bool_decide_ext _ (url item ∈ before)) by apply Hseen.
    case_bool_decide as Hin.
    + apply IH. intros u. rewrite Hseen, elem_of_app, list_elem_of_singleton.
      split; [tauto|]. by intros [?| ->].
    + rewrite (IH _ _ (before ++ [url item])).
      * by rewrite <- app_assoc.
      * intros u. rewrite elem_of_union, elem_of_singleton, Hseen,
          elem_of_app, list_elem_of_singleton. tauto.
  Qed.

Lemma removeDuplicates_firstOccurrences items :
  removeDuplicates items = firstOccurrences items.
Proof.
  unfold removeDuplicates. rewrite (dedupLoop_spec items ∅ [] []); [done|].
  intros u. rewrite elem_of_nil. set_solver.
Qed.

Lemma firstOccurrencesFrom_fresh items : forall before u,
  u ∈ url <$> firstOccurrencesFrom before items -> u ∉ before.
Proof.
  induction items as [|item rest IH]; intros before u; cbn.
  - by rewrite elem_of_nil.
  - rewrite fmap_app, elem_of_app. intros [Hu|Hu].
    + case_bool_decide; cbn in Hu; [by apply elem_of_nil in Hu|].
      apply list_elem_of_singleton in Hu. by subst.
    + apply IH in Hu. rewrite elem_of_app in Hu. tauto.
Qed.

Lemma firstOccurrencesFrom_NoDup items : forall before,
  NoDup (url <$> firstOccurrencesFrom before items).
Proof.
  induction items as [|item rest IH]; intros before; cbn; [constructor|].
  case_bool_decide; cbn; [apply IH|].
  constructor; [|apply IH].
  intros Hin. apply firstOccurrencesFrom_fresh in Hin.
  apply Hin. rewrite elem_of_app, list_elem_of_singleton. by right.
Qed.

Lemma firstOccurrencesFrom_sublist items : forall before,
  firstOccurrencesFrom before items `sublist_of` items.
Proof.
  induction items as [|item rest IH]; intros before; cbn; [done|].
  case_bool_decide; cbn.
  - by apply sublist_cons.
  - by apply sublist_skip.
Qed.

Lemma firstOccurrencesFrom_urls items : forall before u,
  u ∈ url <$> items -> u ∈ before \/ u ∈ url <$> firstOccurrencesFrom before items.
Proof.
  induction items as [|item rest IH]; intros before u; cbn.
  - by rewrite elem_of_nil.
  - rewrite elem_of_cons. intros [->|Hu].
    + case_bool_decide; [by left|right]. cbn. apply elem_of_cons. by left.
    + destruct (IH (before ++ [url item]) u Hu) as [Hb|Hr].
      * apply elem_of_app in Hb as [?|Hb]; [by left|].
        apply list_elem_of_singleton in Hb as ->.
        case_bool_decide; [by left|right]. cbn. apply elem_of_cons. by left.
      * right. rewrite fmap_app, elem_of_app. by right.
Qed.

(** ** Exclusion *)

Section Exclusion.
Context (P : Platform).

Lemma excludedBy_cons e rest u :
  excludedBy P (e :: rest) u
  <-> (u = e \/ (hasWildcard e = true /\ RegExp_test P (excludeRegex e) u = Some true))
      \/ excludedBy P rest u.
Proof.
  split.
  - intros (e' & He' & Hm). apply elem_of_cons in He' as [->|He']; [by left|].
    right. by exists e'.
  - intros [Hm|(e' & He' & Hm)].
    + exists e. split; [left|done].
    + exists e'. split; [by right|done].
Qed.

Lemma keepItem_spec u entries k :
  keepItem P u entries = Some k ->
  (k = false <-> excludedBy P entries u).
Proof.
  revert k. induction entries as [|e rest IH]; intros k; cbn.
  - intros [= <-]. split; [done|]. intros (e & He & _). by apply elem_of_nil in He.
  - rewrite excludedBy_cons.
    destruct (String.eqb_spec u e) as [->|Hne].
    { intros [= <-]. split; [|done]. intros _. left. by left. }
    destruct (hasWildcard e) eqn:Hw.
    + destruct (RegExp_test P (excludeRegex e) u) as [[|]|] eqn:Hre; cbn; [| |done].
      * intros [= <-]. split; [|done]. intros _. left. by right.
      * intros Hk. rewrite (IH _ Hk). split; [by right|].
        intros [[?|[_ ?]]|?]; done.
    + intros Hk. rewrite (IH _ Hk). split; [by right|].
      intros [[?|[? _]]|?]; done.
Qed.

Lemma filterExcluded_spec entries items kept :
  filterExcluded P entries items = Some kept ->
  kept `sublist_of` items
  /\ forall item, item ∈ kept <-> item ∈ items /\ ~ excludedBy P entries (url item).
Proof.
  revert kept. induction items as [|item rest IH]; intros kept; cbn.
  - intros [= <-]. split; [done|]. intros it. rewrite elem_of_nil. tauto.
  - destruct (keepItem P (url item) entries) as [k|] eqn:Hk; cbn; [|done].
    destruct (filterExcluded P entries rest) as [rest'|]; cbn; [|done].
    intros [= <-]. destruct (IH rest' eq_refl) as [Hsub Hiff].
    apply keepItem_spec in Hk. destruct k.
    + split; [by apply sublist_skip|]. intros it.
      rewrite !elem_of_cons, Hiff. split.
      * intros [->|[? ?]]; [|tauto]. split; [by left|].
        intros Hex. apply Hk in Hex. done.
      * tauto.
    + split; [by apply sublist_cons|]. intros it.
      rewrite elem_of_cons, Hiff. split; [tauto|].
      intros [[->|?] Hn]; [|done]. destruct Hn. by apply Hk.
Qed.

(** The filter returns whenever no regular expression it builds is
    rejected. *)
Lemma keepItem_returns u entries :
  (forall e, e ∈ entries -> hasWildcard e = true ->
             is_Some (RegExp_test P (excludeRegex e) u)) ->
  is_Some (keepItem P u entries).
Proof.
  induction entries as [|e rest IH]; intros Hre; cbn; [done|].
  destruct (String.eqb u e); [done|].
  assert (is_Some (keepItem P u rest)) as Hrest.
  { apply IH. intros e' He'. apply Hre. by right. }
  destruct (hasWildcard e) eqn:Hw; [|done].
  destruct (Hre e) as [m ->]; [left|done|]. cbn. by destruct m.
Qed.

Lemma filterExcluded_returns entries items :
  (forall e u, e ∈ entries -> hasWildcard e = true ->
               is_Some (RegExp_test P (excludeRegex e) u)) ->
  is_Some (filterExcluded P entries items).
Proof.
  intros Hre. induction items as [|item rest [rest' IH]]; cbn; [done|].
  destruct (keepItem_returns (url item) entries) as [k ->]; [by eauto|].
  rewrite IH. cbn. done.
Qed.

Lemma filterExcluded_nil items : filterExcluded P [] items = Some items.
Proof. induction items as [|item rest IH]; cbn; [done|]. by rewrite IH. Qed.
End Exclusion.

(** ** The pipeline of [buildUrls] *)

Section Pipeline.
Context (P : Platform) (W : World) (o : Options).

(** The stages behind a result of [buildUrls]. *)
Lemma buildUrls_stages final :
  buildUrls P W o = Some final ->
  exists merged filtered,
    collectItems P W o = Some merged
    /\ filterExcluded P (excludeUrls o) (removeDuplicates merged) = Some filtered
    /\ final = sortItems P filtered.
Proof.
  unfold buildUrls. destruct (collectItems P W o) as [merged|]; cbn; [|done].
  destruct (excludeUrls o) as [|e es] eqn:He; cbn.
  - intros [= <-]. exists merged, (removeDuplicates merged).
    by rewrite filterExcluded_nil.
  - destruct (filterExcluded P (e :: es) (removeDuplicates merged))
      as [filtered|] eqn:Hf; cbn; [|done].
    intros [= <-]. by exists merged, filtered.
Qed.

(** Claim C1.  Whatever the options and the world, the list that
    [buildUrls] returns holds no two items with the same [url]. *)
Theorem buildUrls_urls_unique final :
  buildUrls P W o = Some final -> NoDup (url <$> final).
Proof.
  intros (merged & filtered & _ & Hf & ->)%buildUrls_stages.
  apply filterExcluded_spec in Hf as [Hsub _].
  unfold sortItems. rewrite (sort_perm _ filtered).
  apply (sublist_NoDup _ (url <$> removeDuplicates merged));
    [|by apply fmap_sublist].
  rewrite removeDuplicates_firstOccurrences. apply firstOccurrencesFrom_NoDup.
Qed.

(** Claim C8, as amended.  The list [buildUrls] returns is ascending for
    [localeCompare]: of two adjacent items the first does not compare
    after the second.  This holds for any collation in which, of two
    strings, one is not after the other. *)
Theorem buildUrls_sorted_by_localeCompare final :
  connex (localeCompare P) ->
  buildUrls P W o = Some final ->
  ascending (fun a b => localeCompare P (url a) (url b) <= 0) final.
Proof.
  intros Hc (merged & filtered & _ & _ & ->)%buildUrls_stages.
  apply Sorted_ascending. unfold sortItems.
  apply (sort_sorted (fun a b => localeCompare P (url a) (url b))).
  intros a b. apply Hc.
Qed.

(** What the exclusion filter computes.  An item of the deduplicated
    list is absent from the result exactly when some entry equals its
    URL, or some entry holding [*] or [?] matches it once the entry is
    read as the source of a regular expression in which each [*] became
    [.*] and each [?] became [.], anchored at both ends.  The filter
    escapes nothing, so the other characters of the entry reach the
    expression as they are.  An entry without a wildcard removes by
    equality only. *)
Theorem exclusion_by_equality_or_regex final :
  buildUrls P W o = Some final ->
  exists merged,
    collectItems P W o = Some merged
    /\ forall item,
         item ∈ final
         <-> item ∈ removeDuplicates merged
             /\ ~ excludedBy P (excludeUrls o) (url item).
Proof.
  intros (merged & filtered & Hm & Hf & ->)%buildUrls_stages.
  exists merged. split; [done|]. intros item.
  apply filterExcluded_spec in Hf as [_ Hiff].
  unfold sortItems. by rewrite (sort_perm _ filtered), Hiff.
Qed.
End Pipeline.

Section Chunker.
Context {A : Type}.
Implicit Types (urls : list A) (m i : Z).

Lemma slice_inside urls m i :
  0 <= i -> 1 <= m ->
  Js.slice urls i (i + m)
  = take (Z.to_nat (Z.min m (Z.of_nat (length urls) - i))) (drop (Z.to_nat i) urls).
Proof.
  intros Hi Hm. unfold Js.slice.
  destruct (Z.ltb_spec i 0) as [?|_]; [lia|].
  destruct (Z.ltb_spec (i + m) 0) as [?|_]; [lia|].
  destruct (Z.le_gt_cases i (Z.of_nat (length urls))) as [Hle|Hgt].
  - f_equal; [|f_equal]; lia.
  - rewrite !drop_ge by lia. by rewrite !take_nil.
Qed.

Lemma ceilDiv_step n m : 1 <= m -> 0 < n -> ceilDiv n m = 1 + Z.max 0 (ceilDiv (n - m) m).
Proof.
  intros Hm Hn. unfold ceilDiv.
  replace (n + m - 1) with ((n - 1) + 1 * m) by lia.
  rewrite Z.div_add by lia.
  replace (n - m + m - 1) with (n - 1) by lia.
  pose proof (Z.div_pos (n - 1) m). lia.
Qed.

Lemma ceilDiv_nonpos n m : 1 <= m -> n <= 0 -> Z.max 0 (ceilDiv n m) = 0.
Proof.
  intros Hm Hn. unfold ceilDiv.
  assert ((n + m - 1) / m <= 0); [|lia].
  destruct (Z.eq_dec n 0) as [->|].
  - rewrite Z.div_small; lia.
  - apply Z.lt_succ_r. apply Z.div_lt_upper_bound; lia.
Qed.

Lemma chunkLoop_spec urls m : 1 <= m ->
  forall fuel i, 0 <= i -> (Z.to_nat (Z.of_nat (length urls) - i) < fuel)%nat ->
  exists chunks,
    chunkLoop fuel urls m i = Some chunks
    /\ concat chunks = drop (Z.to_nat i) urls
    /\ Z.of_nat (length chunks) = Z.max 0 (ceilDiv (Z.of_nat (length urls) - i) m)
    /\ Forall (fun c => 1 <= Z.of_nat (length c) <= m) chunks
    /\ (forall k c, chunks !! k = Some c -> (S k < length chunks)%nat ->
          Z.of_nat (length c) = m).
Proof.
  intros Hm. induction fuel as [|fuel IH]; intros i Hi Hfuel; [lia|].
  cbn [chunkLoop]. destruct (Z.ltb_spec i (Z.of_nat (length urls))) as [Hlt|Hge].
  - destruct (IH (i + m)) as (rest & Hrest & Hcat & Hlen & Hall & Hfull); [lia|lia|].
    rewrite Hrest. cbn. eexists; split; [reflexivity|].
    rewrite slice_inside by lia.
    set (n := Z.of_nat (length urls) - i) in *.
    assert (Hdrop : length (drop (Z.to_nat i) urls) = Z.to_nat n)
      by (rewrite length_drop; lia).
    repeat split.
    + cbn. rewrite Hcat.
      destruct (Z.le_gt_cases m n) as [Hmn|Hmn].
      * rewrite Z.min_l by lia.
        replace (Z.to_nat (i + m)) with (Z.to_nat i + Z.to_nat m)%nat by lia.
        rewrite <- drop_drop. apply take_drop.
      * rewrite Z.min_r by lia.
        rewrite (drop_ge urls (Z.to_nat (i + m))) by lia.
        rewrite app_nil_r. apply take_ge. lia.
    + cbn [length]. rewrite Nat2Z.inj_succ, Hlen.
      replace (Z.of_nat (length urls) - (i + m)) with (n - m) by lia.
      rewrite (ceilDiv_step n m) by lia.
      pose proof (Z.le_max_l 0 (ceilDiv (n - m) m)). lia.
    + constructor; [|done]. rewrite length_take, Hdrop. lia.
    + intros k c Hk Hlast. destruct k as [|k]; cbn in Hk.
      * inversion Hk; subst c. cbn in Hlast.
        assert (0 < Z.of_nat (length rest)) by lia.
        assert (m < n).
        { destruct (Z.le_gt_cases n m) as [Hnm|]; [|lia].
          rewrite (ceilDiv_nonpos (Z.of_nat (length urls) - (i + m)) m) in Hlen by lia.
          lia. }
        rewrite length_take, Hdrop. lia.
      * apply (Hfull k c Hk). cbn in Hlast. lia.
  - exists []. repeat split.
    + rewrite drop_ge; [done|lia].
    + cbn. rewrite ceilDiv_nonpos; lia.
    + constructor.
    + intros k c Hk. by rewrite lookup_nil in Hk.
Qed.

(** Claim C2.  For a limit [m >= 1] the chunk loop ends and yields
    [ceil (N / m)] chunks; every chunk but the last has exactly [m] items,
    none is empty or longer than [m], and the chunks concatenated in order
    are the list that was split. *)
Theorem chunkUrls_partition urls (m : Z) (fuel : nat) :
  1 <= m -> (length urls < fuel)%nat ->
  exists chunks,
    chunkUrls fuel urls (Some m) = Some chunks
    /\ Z.of_nat (length chunks) = ceilDiv (Z.of_nat (length urls)) m
    /\ (forall k c, chunks !! k = Some c -> (S k < length chunks)%nat ->
          Z.of_nat (length c) = m)
    /\ Forall (fun c => 1 <= Z.of_nat (length c) <= m) chunks
    /\ concat chunks = urls.
Proof.
  intros Hm Hfuel.
  destruct (chunkLoop_spec urls m Hm fuel 0) as (chunks & Hrun & Hcat & Hlen & Hall & Hfull);
    [lia|lia|].
  exists chunks. repeat split; try done.
  rewrite Hlen, Z.sub_0_r.
  destruct (Z.eq_dec (Z.of_nat (length urls)) 0) as [->|].
  - unfold ceilDiv. rewrite Z.div_small; lia.
  - rewrite (ceilDiv_step (Z.of_nat (length urls)) m) by lia. lia.
Qed.
End Chunker.

(** ** The discovery set *)

Lemma Set_add_prefix s u : s `prefix_of` Js.Set_add s u.
Proof.
  unfold Js.Set_add. destruct (Js.Set_has s u); [done|]. by apply prefix_app_r.
Qed.

Lemma Set_add_NoDup s u : NoDup s -> NoDup (Js.Set_add s u).
Proof.
  intros Hs. unfold Js.Set_add, Js.Set_has. case_bool_decide as Hin; [done|].
  apply NoDup_app. split; [done|]. split; [|apply NoDup_singleton].
  intros x Hx ->%list_elem_of_singleton. done.
Qed.

Lemma Set_add_length s u : (length (Js.Set_add s u) <= S (length s))%nat.
Proof.
  unfold Js.Set_add. destruct (Js.Set_has s u); [lia|].
  rewrite length_app. cbn. lia.
Qed.

Lemma take_prefix_full {A} (k : nat) (s s' : list A) :
  s `prefix_of` s' -> (k <= length s)%nat -> take k s' = take k s.
Proof. intros [t ->] Hk. by rewrite take_app_le. Qed.

Section Walk.
Context (P : Platform) (W : World) (o : Options).

Lemma discoverAnchors_prefix cap anchors : forall ds,
  ds `prefix_of` discoverAnchors P W o cap anchors ds.
Proof.
  induction anchors as [|hrefA rest IH]; intros ds; cbn; [done|].
  repeat match goal with
         | |- _ `prefix_of` (if ?b then _ else _) => destruct b
         | |- _ `prefix_of` (match ?x with Some _ => _ | None => _ end) => destruct x
         end; try done.
  etrans; [apply Set_add_prefix|apply IH].
Qed.

Lemma discoverAnchors_NoDup cap anchors : forall ds,
  NoDup ds -> NoDup (discoverAnchors P W o cap anchors ds).
Proof.
  induction anchors as [|hrefA rest IH]; intros ds Hds; cbn; [done|].
  repeat match goal with
         | |- NoDup (if ?b then _ else _) => destruct b
         | |- NoDup (match ?x with Some _ => _ | None => _ end) => destruct x
         end; auto using Set_add_NoDup.
Qed.

(** The capped anchor loop keeps the first [K] links of the uncapped
    one. *)
Lemma discoverAnchors_capped (K : Z) anchors : 0 <= K -> forall ds,
  discoverAnchors P W o (Some K) anchors (take (Z.to_nat K) ds)
  = take (Z.to_nat K) (discoverAnchors P W o None anchors ds).
Proof.
  intros HK. induction anchors as [|hrefA rest IH]; intros ds; [done|].
  cbn [discoverAnchors Js.geNum]. unfold Js.Set_size.
  destruct (Z.leb_spec K (Z.of_nat (length (take (Z.to_nat K) ds)))) as [Hfull|Hroom].
  - rewrite length_take in Hfull. symmetry. apply take_prefix_full; [|lia].
    apply (discoverAnchors_prefix None (hrefA :: rest)).
  - rewrite length_take in Hroom.
    assert (Hds : take (Z.to_nat K) ds = ds) by (apply take_ge; lia).
    rewrite Hds.
    repeat match goal with
           | |- (if ?b then _ else _) = take _ (if ?b then _ else _) => destruct b
           | |- match ?x with Some _ => _ | None => _ end
                = take _ (match ?x with Some _ => _ | None => _ end) => destruct x
           end; try done; try (by rewrite <- IH, Hds).
    rewrite <- IH. f_equal. symmetry. apply take_ge.
    match goal with
    | |- context [Js.Set_add ds ?u] => pose proof (Set_add_length ds u)
    end.
    lia.
Qed.

Lemma parseHtmlBlock_capped (K : Z) fullFsPath fullUrl ds : 0 <= K ->
  parseHtmlBlock P W o (Some K) fullFsPath fullUrl (take (Z.to_nat K) ds)
  = (fst (parseHtmlBlock P W o None fullFsPath fullUrl ds),
     take (Z.to_nat K) (snd (parseHtmlBlock P W o None fullFsPath fullUrl ds))).
Proof.
  intros HK. unfold parseHtmlBlock.
  destruct (readHtml W fullFsPath) as [root|]; [|done].
  destruct (optTruthy (canonicalHref root)).
  - destruct (canonicalCandidate P o _); [|done].
    destruct (discoverLinks o); [|done]. cbn. by rewrite discoverAnchors_capped.
  - destruct (discoverLinks o); [|done]. cbn. by rewrite discoverAnchors_capped.
Qed.

Lemma parseHtmlBlock_NoDup cap fullFsPath fullUrl ds :
  NoDup ds -> NoDup (snd (parseHtmlBlock P W o cap fullFsPath fullUrl ds)).
Proof.
  intros Hds. unfold parseHtmlBlock.
  repeat match goal with
         | |- NoDup (snd (if ?b then _ else _)) => destruct b
         | |- NoDup (snd (match ?x with Some _ => _ | None => _ end)) => destruct x
         end; cbn; auto using discoverAnchors_NoDup.
Qed.

Lemma walkFile_capped (K : Z) n f items ds items' ds' : 0 <= K ->
  walkFile P W o None n f (items, ds) = Some (items', ds') ->
  walkFile P W o (Some K) n f (items, take (Z.to_nat K) ds)
  = Some (items', take (Z.to_nat K) ds').
Proof.
  intros HK. unfold walkFile.
  case_bool_decide; [by intros [= <- <-]|].
  destruct (normalizeUrl P (baseUrl o) _) as [fullUrl|]; cbn; [|done].
  destruct (statSync W _) as [stat|]; [|by intros [= <- <-]].
  destruct (parseCanonical o && isHtmlExt _); [|by intros [= <- <-]].
  rewrite parseHtmlBlock_capped by done.
  destruct (parseHtmlBlock P W o None _ fullUrl ds) as [u ds1]; cbn.
  by intros [= <- <-].
Qed.

Lemma walkFile_NoDup cap n f items ds items' ds' :
  walkFile P W o cap n f (items, ds) = Some (items', ds') ->
  NoDup ds -> NoDup ds'.
Proof.
  unfold walkFile.
  case_bool_decide; [by intros [= <- <-]|].
  destruct (normalizeUrl P (baseUrl o) _) as [fullUrl|]; cbn; [|done].
  destruct (statSync W _) as [stat|]; [|by intros [= <- <-]].
  destruct (parseCanonical o && isHtmlExt _); [|by intros [= <- <-]].
  intros Hw Hds.
  pose proof (parseHtmlBlock_NoDup cap (path_join P (publicDir o) f) fullUrl ds Hds) as Hnd.
  destruct (parseHtmlBlock P W o cap _ fullUrl ds) as [u ds1]; cbn in *.
  by injection Hw as <- <-.
Qed.

Lemma walkFrom_capped (K : Z) fs : 0 <= K -> forall n items ds items' ds',
  walkFrom P W o None n fs (items, ds) = Some (items', ds') ->
  walkFrom P W o (Some K) n fs (items, take (Z.to_nat K) ds)
  = Some (items', take (Z.to_nat K) ds').
Proof.
  intros HK. induction fs as [|f rest IH]; intros n items ds items' ds';
    cbn [walkFrom].
  - by intros [= <- <-].
  - destruct (walkFile P W o None n f (items, ds)) as [[items1 ds1]|] eqn:Hf;
      cbn [mbind option_bind]; [|done].
    intros Hrest. rewrite (walkFile_capped K n f items ds items1 ds1 HK Hf).
    cbn [mbind option_bind]. by apply IH.
Qed.

Lemma walkFrom_NoDup cap fs : forall n items ds items' ds',
  walkFrom P W o cap n fs (items, ds) = Some (items', ds') ->
  NoDup ds -> NoDup ds'.
Proof.
  induction fs as [|f rest IH]; intros n items ds items' ds'; cbn [walkFrom].
  - by intros [= <- <-].
  - destruct (walkFile P W o cap n f (items, ds)) as [[items1 ds1]|] eqn:Hf;
      cbn [mbind option_bind]; [|done].
    intros Hrest Hds. eapply IH; [done|]. by eapply walkFile_NoDup.
Qed.

(** ** Merging *)

Lemma hasUrl_app items u v :
  hasUrl (items ++ [mergedItem o u]) v = hasUrl items v || String.eqb u v.
Proof. unfold hasUrl. rewrite existsb_app. cbn. by rewrite orb_false_r. Qed.

Lemma url_mergedItem (us : list string) : url <$> (mergedItem o <$> us) = us.
Proof. induction us as [|u us IH]; [done|]. cbn. by rewrite IH. Qed.

Lemma takeUpTo_nil {A} (room : option nat) : takeUpTo room (@nil A) = [].
Proof. destruct room; [apply take_nil|done]. Qed.

Lemma takeUpTo_length {A} (room : option nat) (l : list A) :
  length (takeUpTo room l)
  = match room with Some r => Nat.min r (length l) | None => length l end.
Proof. destruct room; [apply length_take|done]. Qed.

Lemma filter_length_le {A} (f : A -> bool) (l : list A) :
  (length (List.filter f l) <= length l)%nat.
Proof. induction l as [|x l IH]; cbn; [done|]. destruct (f x); cbn; lia. Qed.

(** The merge loop appends the links of the set that no item has yet,
    in the order of the set, for as long as the two caps leave room. *)
Lemma mergeLoop_exact capTotal capDiscovered us : forall items n,
  NoDup us ->
  mergeLoop o capTotal capDiscovered us items n
  = items ++ (mergedItem o <$>
                takeUpTo (mergeRoom capTotal capDiscovered (length items) n)
                  (List.filter (fun u => negb (hasUrl items u)) us)).
Proof.
  induction us as [|u rest IH]; intros items n Hnd; cbn [mergeLoop].
  { cbn. by rewrite takeUpTo_nil, app_nil_r. }
  apply NoDup_cons in Hnd as [Hu Hnd].
  destruct (Js.geNum (Z.of_nat (length items)) capTotal) eqn:HT.
  { destruct capTotal as [T|]; [|done]. cbn in HT. apply Z.leb_le in HT.
    assert (mergeRoom (Some T) capDiscovered (length items) n = Some 0%nat) as ->.
    { unfold mergeRoom. destruct capDiscovered; f_equal; lia. }
    cbn. by rewrite app_nil_r. }
  destruct (Js.geNum n capDiscovered) eqn:HD.
  { destruct capDiscovered as [K|]; [|done]. cbn in HD. apply Z.leb_le in HD.
    assert (mergeRoom capTotal (Some K) (length items) n = Some 0%nat) as ->.
    { unfold mergeRoom. destruct capTotal; f_equal; lia. }
    cbn. by rewrite app_nil_r. }
  cbn [List.filter]. destruct (hasUrl items u) eqn:Hh; cbn [negb].
  { by apply IH. }
  rewrite IH by done. rewrite <- app_assoc. f_equal. cbn [app].
  assert (Hf : List.filter (fun v => negb (hasUrl (items ++ [mergedItem o u]) v)) rest
               = List.filter (fun v => negb (hasUrl items v)) rest).
  { apply List.filter_ext_in. intros v Hv%list_elem_of_In. rewrite hasUrl_app.
    assert (String.eqb u v = false) as ->; [|by rewrite orb_false_r].
    apply String.eqb_neq. by intros ->. }
  rewrite Hf, length_app. cbn [length].
  set (l := List.filter _ rest).
  assert (Hroom : mergeRoom capTotal capDiscovered (length items) n = None
                  /\ mergeRoom capTotal capDiscovered (length items + 1) (n + 1) = None
                  \/ exists r,
                       mergeRoom capTotal capDiscovered (length items) n = Some (S r)
                       /\ mergeRoom capTotal capDiscovered (length items + 1) (n + 1)
                          = Some r).
  { unfold mergeRoom. destruct capTotal as [T|], capDiscovered as [K|];
      cbn in HT, HD; try apply Z.leb_gt in HT; try apply Z.leb_gt in HD.
    - right. exists (Z.to_nat (Z.min (T - Z.of_nat (length items + 1)) (K - (n + 1)))).
      split; f_equal; lia.
    - right. exists (Z.to_nat (T - Z.of_nat (length items + 1))). split; f_equal; lia.
    - right. exists (Z.to_nat (K - (n + 1))). split; f_equal; lia.
    - by left. }
  destruct Hroom as [[-> ->]|(r & -> & ->)]; done.
Qed.

Lemma mergeDiscovered_exact capTotal capDiscovered discoveredSet items :
  NoDup discoveredSet ->
  mergeDiscovered o capTotal capDiscovered discoveredSet items
  = items ++ (mergedItem o <$>
                discoveredToAdd o capTotal capDiscovered items discoveredSet).
Proof.
  intros Hnd. unfold mergeDiscovered, discoveredToAdd.
  destruct (discoverLinks o); cbn [andb]; [|by rewrite app_nil_r].
  destruct (Z.eqb_spec (Js.Set_size discoveredSet) 0) as [Hz|Hnz]; cbn [negb].
  - unfold Js.Set_size in Hz. destruct discoveredSet; [|cbn in Hz; lia].
    cbn. by rewrite takeUpTo_nil, app_nil_r.
  - by apply mergeLoop_exact.
Qed.

(** Claim C5.  The candidates are the walked items, then one item per
    manual URL, then one item per discovered link that becomes an item:
    the links of the discovery set that no walked or manual item has, in
    the order of the set, as many as the caps leave room for.  Every
    manual and discovered item carries the configured [changefreq] and
    [priority].  Removing duplicates keeps, for each URL, the first item
    in that order and drops the later ones, and the result of
    [buildUrls] holds exactly those first occurrences that no exclusion
    entry removes. *)
Theorem merge_order_and_first_occurrence walked discoveredSet :
  walk P W o (getMaxDiscoveredLinks W) = Some (walked, discoveredSet) ->
  let manual := mergedItem o <$> additionalUrls o in
  let added :=
    discoveredToAdd o (getMaxTotalUrls W) (getMaxDiscoveredLinks W)
      (walked ++ manual) discoveredSet in
  let merged := walked ++ manual ++ (mergedItem o <$> added) in
  collectItems P W o = Some merged
  /\ url <$> merged = (url <$> walked) ++ additionalUrls o ++ added
  /\ Forall (fun item =>
               changefreq item = opt_changefreq o
               /\ priority item = PriorityRaw <$> opt_priority o)
       (manual ++ (mergedItem o <$> added))
  /\ removeDuplicates merged = firstOccurrences merged
  /\ forall final,
       buildUrls P W o = Some final ->
       forall item,
         item ∈ final
         <-> item ∈ firstOccurrences merged
             /\ ~ excludedBy P (excludeUrls o) (url item).
Proof.
  intros Hw manual added merged.
  assert (Hnd : NoDup discoveredSet).
  { unfold walk in Hw. eapply walkFrom_NoDup; [exact Hw|constructor]. }
  assert (Hc : collectItems P W o = Some merged).
  { unfold collectItems. rewrite Hw. cbn [mbind option_bind]. f_equal.
    rewrite mergeDiscovered_exact by done.
    unfold addManual. by rewrite <- app_assoc. }
  split_and!.
  - done.
  - subst merged manual. by rewrite !fmap_app, !url_mergedItem.
  - subst manual. rewrite <- fmap_app. apply Forall_fmap, Forall_true. done.
  - apply removeDuplicates_firstOccurrences.
  - intros final (merged' & filtered & Hm & Hf & ->)%buildUrls_stages item.
    rewrite Hc in Hm. injection Hm as <-.
    apply filterExcluded_spec in Hf as [_ Hiff].
    unfold sortItems. rewrite (sort_perm _ filtered), Hiff.
    by rewrite removeDuplicates_firstOccurrences.
Qed.

(** Claim C7, as amended.  With a cap [K >= 0] the discovery set is the
    first [K] links of the set an uncapped walk collects: it never holds
    more than [K] URLs and holds exactly [K] when more than [K] distinct
    links are discoverable, and the walked items are the same with and
    without the cap.  After the walked and manual items, which all
    stay, the merge appends the URLs of the set that none of them has,
    in the order of the set, and stops when [K] have been appended or
    the collection holds as many items as its own cap allows.  So at
    most [K] discovered items are retained and the cap on the collection
    is not exceeded by them; exactly [K] are retained, for [K > 0], if
    and only if link discovery is on, at least [K] URLs of the set are
    new and the cap on the collection leaves room for [K] more. *)
Theorem discovery_cap_keeps_first_K (K : Z) walked allLinks :
  getMaxDiscoveredLinks W = Some K ->
  0 <= K ->
  walk P W o None = Some (walked, allLinks) ->
  let kept := take (Z.to_nat K) allLinks in
  let base := addManual o walked in
  let fresh := List.filter (fun u => negb (hasUrl base u)) kept in
  let added := discoveredToAdd o (getMaxTotalUrls W) (Some K) base kept in
  walk P W o (Some K) = Some (walked, kept)
  /\ Z.of_nat (length kept) <= K
  /\ (K < Z.of_nat (length allLinks) -> Z.of_nat (length kept) = K)
  /\ collectItems P W o = Some (base ++ (mergedItem o <$> added))
  /\ added `prefix_of` fresh
  /\ Z.of_nat (length added) <= K
  /\ (forall T, getMaxTotalUrls W = Some T ->
        Z.of_nat (length base + length added) <= Z.max T (Z.of_nat (length base)))
  /\ (Z.of_nat (length added) = K
      <-> K = 0
          \/ (discoverLinks o = true
              /\ K <= Z.of_nat (length fresh)
              /\ forall T, getMaxTotalUrls W = Some T ->
                   Z.of_nat (length base) + K <= T)).
Proof.
  intros Hcap HK Hw kept base fresh added. unfold walk in *.
  pose proof (walkFrom_capped K (files W o) HK 0%nat [] [] walked allLinks Hw) as Hk.
  rewrite take_nil in Hk. fold kept in Hk.
  assert (Hnd : NoDup kept).
  { eapply sublist_NoDup; [|apply sublist_take].
    eapply walkFrom_NoDup; [exact Hw|constructor]. }
  assert (Hlen : Z.of_nat (length kept) <= K).
  { subst kept. rewrite length_take. lia. }
  assert (Hfresh : (length fresh <= length kept)%nat) by apply filter_length_le.
  assert (Hadd : length added
                 = if discoverLinks o
                   then match getMaxTotalUrls W with
                        | Some T =>
                            Nat.min (Z.to_nat (Z.min (T - Z.of_nat (length base)) (K - 0)))
                              (length fresh)
                        | None => Nat.min (Z.to_nat (K - 0)) (length fresh)
                        end
                   else 0%nat).
  { subst added. unfold discoveredToAdd. destruct (discoverLinks o); [|done].
    rewrite takeUpTo_length. unfold mergeRoom. by destruct (getMaxTotalUrls W). }
  split_and!.
  - done.
  - done.
  - intros Hmore. subst kept. rewrite length_take. lia.
  - unfold collectItems, walk. rewrite Hcap, Hk. cbn [mbind option_bind].
    f_equal. by apply mergeDiscovered_exact.
  - subst added. unfold discoveredToAdd. destruct (discoverLinks o).
    + unfold takeUpTo. destruct (mergeRoom _ _ _ _); [apply prefix_take|done].
    + apply prefix_nil.
  - rewrite Hadd. destruct (discoverLinks o), (getMaxTotalUrls W); lia.
  - intros T HT. rewrite Hadd, HT. destruct (discoverLinks o); lia.
  - rewrite Hadd. destruct (discoverLinks o), (getMaxTotalUrls W) as [T|].
    + split.
      * intros Heq. destruct (Z.eq_dec K 0) as [->|Hn]; [by left|right].
        split_and!; [done|lia|]. intros T' [= <-]. lia.
      * intros [->|(_ & Hf & HT)]; [lia|]. specialize (HT T eq_refl). lia.
    + split.
      * intros Heq. destruct (Z.eq_dec K 0) as [->|Hn]; [by left|right].
        split_and!; [done|lia|]. intros T' [=].
      * intros [->|(_ & Hf & _)]; lia.
    + split; [intros Heq; left; lia|intros [->|(Hd & _)]; [done|done]].
    + split; [intros Heq; left; lia|intros [->|(Hd & _)]; [done|done]].
Qed.
End Walk.

(** ** Wildcards and the reference regular expressions *)

Lemma append_cons c s t : String c s +:+ t = String c (s +:+ t).
Proof. reflexivity. Qed.

Lemma append_empty t : EmptyString +:+ t = t.
Proof. reflexivity. Qed.

Lemma length_append_char s c :
  String.length (s +:+ String c EmptyString) = S (String.length s).
Proof. induction s as [|d s IH]; [done|]. rewrite append_cons. cbn. by rewrite IH. Qed.

Lemma takeChars_append s t : takeChars (String.length s) (s +:+ t) = s.
Proof. induction s as [|d s IH]; [by destruct t|]. rewrite append_cons. cbn. by rewrite IH. Qed.

Lemma endsWith_append_char s c :
  Js.endsWith (s +:+ String c EmptyString) (String c EmptyString) = true.
Proof.
  unfold Js.endsWith. rewrite length_append_char. cbn [String.length].
  replace (S (String.length s) - 1)%nat with (String.length s) by lia.
  apply andb_true_iff. split; [by apply Nat.leb_le; lia|].
  apply String.eqb_eq. induction s as [|d s IH]; [done|].
  rewrite append_cons. cbn. exact IH.
Qed.

Lemma wildcardsToRegex_cons c entry :
  wildcardsToRegex (String c entry)
  = if Ascii.eqb c "*"%char then String "."%char (String "*"%char (wildcardsToRegex entry))
    else if Ascii.eqb c "?"%char then String "."%char (wildcardsToRegex entry)
    else String c (wildcardsToRegex entry).
Proof. cbn [wildcardsToRegex]. by destruct (Ascii.eqb c "*"), (Ascii.eqb c "?"). Qed.

Lemma wildcardsToRegex_no_leading_star entry :
  plainEntry entry = true ->
  forall rest, wildcardsToRegex entry <> String "*"%char rest.
Proof.
  destruct entry as [|c entry]; [done|]. intros Hp rest.
  rewrite wildcardsToRegex_cons.
  destruct (Ascii.eqb c "*") eqn:Hs; [done|].
  destruct (Ascii.eqb c "?") eqn:Hq; [done|].
  intros [= ->]. done.
Qed.

Lemma parseAtoms_step c s :
  Reference.isMeta c = false ->
  (forall rest, s <> String "*"%char rest) ->
  Reference.parseAtoms (String c s)
  = cons (if Ascii.eqb c "."%char then Reference.AnyChar else Reference.Lit c, false)
      <$> Reference.parseAtoms s.
Proof.
  intros Hm Hns. cbn [Reference.parseAtoms]. rewrite Hm.
  destruct s as [|d w]; [done|].
  destruct d as [[] [] [] [] [] [] [] []]; try done.
  by destruct (Hns w).
Qed.

Lemma parseAtoms_star c s :
  Reference.isMeta c = false ->
  Reference.parseAtoms (String c (String "*"%char s))
  = cons (if Ascii.eqb c "."%char then Reference.AnyChar else Reference.Lit c, true)
      <$> Reference.parseAtoms s.
Proof. intros Hm. cbn [Reference.parseAtoms]. by rewrite Hm. Qed.

Lemma parseAtoms_translated entry :
  plainEntry entry = true ->
  Reference.parseAtoms (wildcardsToRegex entry) = Some (atomsOf entry).
Proof.
  induction entry as [|c entry IH]; [done|].
  cbn [plainEntry]. intros [Hc Hp]%andb_true_iff.
  specialize (IH Hp). rewrite wildcardsToRegex_cons. cbn [atomsOf].
  pose proof (wildcardsToRegex_no_leading_star entry Hp) as Hns.
  destruct (Ascii.eqb c "*") eqn:Hs.
  { rewrite parseAtoms_star by done. by rewrite IH. }
  destruct (Ascii.eqb c "?") eqn:Hq.
  { rewrite parseAtoms_step by done. by rewrite IH. }
  cbn in Hc. unfold literalChar in Hc. apply andb_true_iff in Hc as [Hm Hdot].
  apply negb_true_iff in Hm, Hdot.
  rewrite parseAtoms_step by done. by rewrite IH, Hdot.
Qed.

Lemma matchAtoms_star a rest u :
  Reference.matchAtoms ((a, true) :: rest) u
  = Reference.matchAtoms rest u
    || match u with
       | String c u' =>
           Reference.atomMatches a c && Reference.matchAtoms ((a, true) :: rest) u'
       | EmptyString => false
       end.
Proof. by destruct u. Qed.

Lemma globMatch_star entry u :
  globMatch (String "*"%char entry) u
  = globMatch entry u
    || match u with
       | String _ u' => globMatch (String "*"%char entry) u'
       | EmptyString => false
       end.
Proof. by destruct u. Qed.

Lemma matchAtoms_glob entry : forall u,
  singleLine u = true ->
  Reference.matchAtoms (atomsOf entry) u = globMatch entry u.
Proof.
  induction entry as [|c entry IH]; intros u Hu; [done|].
  destruct (Ascii.eqb_spec c "*"%char) as [->|Hs].
  - change (atomsOf (String "*" entry))
      with ((Reference.AnyChar, true) :: atomsOf entry).
    induction u as [|d u IHu].
    + rewrite matchAtoms_star, globMatch_star. by rewrite IH.
    + rewrite matchAtoms_star, globMatch_star.
      pose proof Hu as Hu'. cbn in Hu'. apply andb_true_iff in Hu' as [Hd Hu'].
      rewrite IH by done. rewrite IHu by done.
      cbn [Reference.atomMatches]. by rewrite Hd.
  - apply Ascii.eqb_neq in Hs. cbn [atomsOf globMatch]. rewrite Hs.
    destruct (Ascii.eqb c "?") eqn:Hq; cbn [Reference.matchAtoms].
    + destruct u as [|d u]; [done|].
      cbn in Hu. apply andb_true_iff in Hu as [Hd Hu].
      cbn [Reference.atomMatches orb]. by rewrite Hd, IH.
    + destruct u as [|d u]; [done|].
      cbn in Hu. apply andb_true_iff in Hu as [Hd Hu].
      cbn [Reference.atomMatches orb]. rewrite IH by done.
      by rewrite (Ascii.eqb_sym d c).
Qed.

(** On entries made of wildcards and literal characters the regular
    expression of the reference platform decides wildcard matching. *)
Lemma regExpTest_decides_globMatch entry u :
  plainEntry entry = true ->
  singleLine u = true ->
  Reference.regExpTest (excludeRegex entry) u = Some (globMatch entry u).
Proof.
  intros Hp Hu. unfold Reference.regExpTest, excludeRegex.
  rewrite append_cons, append_empty.
  assert (Js.startsWith (String "^" (wildcardsToRegex entry +:+ "$")) "^" = true) as ->.
  { cbn. by destruct (wildcardsToRegex entry +:+ "$"). }
  assert (Js.endsWith (String "^" (wildcardsToRegex entry +:+ "$")) "$" = true) as ->.
  { apply (endsWith_append_char (String "^" (wildcardsToRegex entry)) "$"). }
  cbn [String.length andb Js.dropChars].
  rewrite length_append_char.
  replace (S (S (String.length (wildcardsToRegex entry))) - 2)%nat
    with (String.length (wildcardsToRegex entry)) by lia.
  rewrite takeChars_append, parseAtoms_translated by done.
  cbn. by rewrite matchAtoms_glob.
Qed.

(** ** The reference collation is a usable comparator *)

Lemma compareLex_antisym a : forall b,
  Reference.compareLex a b = - Reference.compareLex b a.
Proof.
  induction a as [|x a IH]; intros [|y b]; cbn [Reference.compareLex]; try done.
  destruct (Nat.ltb_spec x y), (Nat.ltb_spec y x); try done; try lia.
Qed.

Lemma compareStrings_antisym a b :
  Reference.compareStrings a b = - Reference.compareStrings b a.
Proof.
  unfold Reference.compareStrings.
  rewrite (compareLex_antisym (fst <$> Reference.weights a)).
  destruct (Reference.compareLex (fst <$> Reference.weights b)
              (fst <$> Reference.weights a)); cbn; try done.
  apply compareLex_antisym.
Qed.

Lemma compareStrings_connex : connex Reference.compareStrings.
Proof.
  intros a b. rewrite (compareStrings_antisym a b).
  destruct (Z.le_gt_cases (Reference.compareStrings b a) 0); [by right|left; lia].
Qed.

(** ** The walk returns *)

Section Returns.
Context (P : Platform) (W : World) (o : Options).

Lemma walkFrom_returns cap fs : forall n st,
  (forall f, f ∈ fs ->
     is_Some (normalizeUrl P (baseUrl o) ("/" +:+ Js.backslashesToSlashes f))) ->
  is_Some (walkFrom P W o cap n fs st).
Proof.
  induction fs as [|f rest IH]; intros n [items ds] Hok; cbn [walkFrom]; [done|].
  assert (is_Some (walkFile P W o cap n f (items, ds))) as [st' ->].
  { unfold walkFile. case_bool_decide; [done|].
    destruct (Hok f) as [fullUrl ->]; [left|]. cbn.
    repeat match goal with
           | |- context [match ?x with _ => _ end] => destruct x
           end; done. }
  cbn. apply IH. intros f' Hf'. apply Hok. by right.
Qed.

(** [buildUrls] returns when the URL constructor accepts the walked
    paths and the [RegExp] constructor the wildcard entries. *)
Lemma buildUrls_returns :
  (forall f, f ∈ files W o ->
     is_Some (normalizeUrl P (baseUrl o) ("/" +:+ Js.backslashesToSlashes f))) ->
  (forall e u, e ∈ excludeUrls o -> hasWildcard e = true ->
     is_Some (RegExp_test P (excludeRegex e) u)) ->
  is_Some (buildUrls P W o).
Proof.
  intros Hurl Hre. unfold buildUrls, collectItems, walk.
  destruct (walkFrom_returns (getMaxDiscoveredLinks W) (files W o) 0%nat ([], []) Hurl)
    as [[items ds] ->].
  cbn [mbind option_bind].
  destruct (0 <? length (excludeUrls o))%nat; [|done].
  destruct (filterExcluded_returns P (excludeUrls o)
              (removeDuplicates
                 (mergeDiscovered o (getMaxTotalUrls W) (getMaxDiscoveredLinks W)
                    ds (addManual o items))) Hre) as [kept ->].
  done.
Qed.
End Returns.

(** ** Canonical links *)

(** Claim C6, as amended.  With canonical parsing on, an HTML file whose
    canonical [href] is not an absolute http(s) URL gets as URL that
    [href], minus one leading slash, joined to [publicDir] (the site
    root, not the directory of the file) and turned back into a URL by
    [normalizePathToUrl]; when that conversion throws, the URL derived
    from the path of the file stays. *)
Theorem canonical_relative_resolves_under_publicDir
    (P : Platform) (W : World) (o : Options) (cap : option Z) (n : nat)
    (f : string) (items : list Item) (ds : list string)
    (stat : Stat) (root : Dom) (href fullUrl : string) :
  parseCanonical o = true ->
  isHtmlExt (Js.toLowerCase (path_extname P f)) = true ->
  normalizeUrl P (baseUrl o) ("/" +:+ Js.backslashesToSlashes f) = Some fullUrl ->
  statSync W (path_join P (publicDir o) f) = Some stat ->
  readHtml W (path_join P (publicDir o) f) = Some root ->
  canonicalHref root = Some href ->
  Js.truthy href = true ->
  Js.isHttpUrl href = false ->
  exists item ds',
    walkFile P W o cap n f (items, ds) = Some (items ++ [item], ds')
    /\ url item
       = default fullUrl
           (normalizePathToUrl P (baseUrl o) (publicDir o)
              (path_join P (publicDir o) (Js.stripLeadingSlash href))).
Proof.
  intros Hpc Hext Hurl Hstat Hread Hhref Htruthy Hrel.
  unfold walkFile. case_bool_decide as Hmap.
  { unfold isHtmlExt in Hext. apply bool_decide_eq_true in Hext.
    apply list_elem_of_singleton in Hmap. rewrite Hmap in Hext.
    exfalso. by repeat (apply elem_of_cons in Hext as [Hext|Hext]; [done|]);
      apply elem_of_nil in Hext. }
  rewrite Hurl. cbn [mbind option_bind]. rewrite Hstat, Hpc, Hext. cbn [andb].
  unfold parseHtmlBlock, canonicalCandidate.
  rewrite Hread, Hhref. unfold default at 1. cbn [optTruthy from_option id].
  rewrite Htruthy, Hrel.
  destruct (normalizePathToUrl P (baseUrl o) (publicDir o) _) as [u|]; cbn [default].
  - destruct (discoverLinks o); eexists _, _; split; reflexivity.
  - eexists _, _; split; reflexivity.
Qed.

(** ** The driver *)

(** The guard on the priority input.  When the input is set and
    [parseFloat] reads it as [NaN] or as a value outside [0, 1], the run
    fails and creates no file: no XML, TXT, gzip or index artifact. *)
Theorem invalid_priority_aborts_before_any_write
    (P : Platform) (W : World) (inputs : gmap string string) (fuel : nat) :
  Js.truthy (getInput inputs "priority") = true ->
  Js.outsideUnitInterval (parseFloat P (getInput inputs "priority")) = true ->
  exists out,
    run P W inputs fuel = Some out
    /\ artifacts out = []
    /\ (failures out = [InvalidPriority (getInput inputs "priority")]
        \/ failures out = [MissingSiteUrl]
        \/ failures out = [MissingPublicDir]).
Proof.
  intros Hset Hbad. unfold run.
  repeat match goal with
         | |- context [if negb (optTruthy ?x) then _ else _] =>
             destruct (negb (optTruthy x))
         end;
    try (eexists; split; [reflexivity|]; cbn; tauto).
  rewrite Hset, Hbad. cbn [andb].
  eexists; split; [reflexivity|]. cbn. tauto.
Qed.

(** ** The XML validator *)

Section XmlFindings.
Context (P : Platform) (xml : string) (strict : bool) (maxUrls : option Z).

Lemma findings_of_failing_checks msg g :
  Fails P xml maxUrls msg g ->
  {| Validator.type := severity strict g; Validator.message := msg |}
    ∈ Validator.validateXmlSitemap P xml strict maxUrls.
Proof.
  unfold Validator.validateXmlSitemap.
  destruct 1 as [H|H|H|H1 H2|H|H|H|H]; cbn [severity].
  - apply elem_of_app. left.
    rewrite <- !negb_andb, H. cbn. left.
  - do 1 (apply elem_of_app; right). apply elem_of_app. left.
    rewrite H. left.
  - do 2 (apply elem_of_app; right). apply elem_of_app. left.
    rewrite H. left.
  - do 2 (apply elem_of_app; right). apply elem_of_app. left.
    rewrite H1, H2. left.
  - do 3 (apply elem_of_app; right). apply elem_of_app. left.
    rewrite H. left.
  - do 4 (apply elem_of_app; right). apply elem_of_app. left.
    apply Z.ltb_lt in H. rewrite H. left.
  - do 5 (apply elem_of_app; right). apply elem_of_app. left.
    apply Z.ltb_lt in H. rewrite H. left.
  - do 6 (apply elem_of_app; right). apply elem_of_app. left.
    apply Z.ltb_lt in H. rewrite H. left.
Qed.

Lemma failing_checks_of_findings f :
  f ∈ Validator.validateXmlSitemap P xml strict maxUrls ->
  Validator.type f = Validator.info
  \/ exists g, Fails P xml maxUrls (Validator.message f) g
               /\ Validator.type f = severity strict g.
Proof.
  unfold Validator.validateXmlSitemap. rewrite !elem_of_app.
  intros [Hf|[Hf|[Hf|[Hf|[Hf|[Hf|[Hf|Hf]]]]]]].
  - destruct (negb (Validator.hasXmlDeclaration xml)
              || negb (Validator.hasUrlsetOpen xml)
              || negb (Validator.hasUrlsetClose xml)) eqn:Hc;
      apply list_elem_of_singleton in Hf as ->; [right|by left].
    exists ByPolicy. split; [|done]. constructor.
    rewrite <- !negb_andb in Hc. by apply negb_true_iff in Hc.
  - destruct (Validator.hasNamespace xml) eqn:Hc; cbn in Hf;
      [by apply elem_of_nil in Hf|].
    apply list_elem_of_singleton in Hf as ->. right.
    exists ByPolicy. split; [by constructor|done].
  - destruct (Validator.hasUrlTags xml) eqn:Hu; cbn in Hf.
    + destruct (Validator.hasLocTags xml) eqn:Hl; cbn in Hf;
        [by apply elem_of_nil in Hf|].
      apply list_elem_of_singleton in Hf as ->. right.
      exists ByPolicy. split; [by constructor|done].
    + apply list_elem_of_singleton in Hf as ->. right.
      exists ByPolicy. split; [by constructor|done].
  - destruct (Validator.gtNum (Validator.urlCount xml) maxUrls) eqn:Hc;
      [|by apply elem_of_nil in Hf].
    apply list_elem_of_singleton in Hf as ->. right.
    exists ByPolicy. split; [by constructor|done].
  - destruct (Z.ltb_spec 0 (Validator.invalidLocCount xml));
      [|by apply elem_of_nil in Hf].
    apply list_elem_of_singleton in Hf as ->. right.
    exists Advisory. split; [by constructor|done].
  - destruct (Z.ltb_spec 0 (Validator.invalidChangefreq xml));
      [|by apply elem_of_nil in Hf].
    apply list_elem_of_singleton in Hf as ->. right.
    exists Advisory. split; [by constructor|done].
  - destruct (Z.ltb_spec 0 (Validator.invalidPriority P xml));
      [|by apply elem_of_nil in Hf].
    apply list_elem_of_singleton in Hf as ->. right.
    exists Advisory. split; [by constructor|done].
  - destruct (_ && _); [|by apply elem_of_nil in Hf].
    apply list_elem_of_singleton in Hf as ->. by left.
Qed.
End XmlFindings.

(** Claim C9, as amended.  In [validateXmlSitemap] a finding that is not
    informational is reported exactly when its check fails, and its
    severity is: for the structure, namespace, element-pair and
    entry-count checks, error under the strict policy and warning under
    the lenient one; for the location, changefreq and priority checks,
    warning under both policies. *)
Theorem xml_findings_graded_or_advisory
    (P : Platform) (xml : string) (strict : bool) (maxUrls : option Z)
    (f : Validator.Finding) :
  Validator.type f <> Validator.info ->
  (f ∈ Validator.validateXmlSitemap P xml strict maxUrls
   <-> exists g, Fails P xml maxUrls (Validator.message f) g
                 /\ Validator.type f = severity strict g).
Proof.
  intros Hinfo. split.
  - intros Hf. by destruct (failing_checks_of_findings P xml strict maxUrls f Hf).
  - intros (g & Hfail & Hty). destruct f as [ty msg]. cbn in *. subst ty.
    by apply findings_of_failing_checks.
Qed.

(** ** Lines of a TXT sitemap *)

Lemma containsChar_app c s t :
  containsChar c (s +:+ t) = containsChar c s || containsChar c t.
Proof.
  induction s as [|d s IH]; [done|].
  change (containsChar c (String d s +:+ t))
    with (Ascii.eqb d c || containsChar c (s +:+ t)).
  rewrite IH. cbn. apply orb_assoc.
Qed.

Lemma hasNewline_split line :
  Validator.hasNewline line = containsChar Js.CR line || containsChar Js.LF line.
Proof.
  induction line as [|c line IH]; cbn; [done|].
  rewrite IH. unfold Validator.isLineTerminator.
  destruct (Ascii.eqb c Js.LF), (Ascii.eqb c Js.CR),
    (containsChar Js.CR line), (containsChar Js.LF line); done.
Qed.

Lemma splitLines_no_line_feed (n : nat) : forall s cur line,
  (String.length s <= n)%nat ->
  containsChar Js.LF cur = false ->
  line ∈ Validator.splitLines s cur ->
  containsChar Js.LF line = false.
Proof.
  induction n as [|n IH]; intros s cur line Hlen Hcur.
  - destruct s; cbn in Hlen; [|lia]. cbn.
    by intros ->%list_elem_of_singleton.
  - destruct s as [|c s]; cbn [Validator.splitLines].
    { by intros ->%list_elem_of_singleton. }
    cbn in Hlen.
    assert (Hpush : Ascii.eqb c Js.LF = false ->
              containsChar Js.LF (cur +:+ String c EmptyString) = false).
    { intros Hc. rewrite containsChar_app, Hcur. cbn. by rewrite Hc. }
    destruct (Ascii.eqb c Js.LF) eqn:Hc.
    + intros [->|Hin]%elem_of_cons; [done|].
      apply (IH s EmptyString); [lia|done|done].
    + destruct s as [|c' s'].
      * apply (IH EmptyString); [cbn; lia|by apply Hpush].
      * destruct (Ascii.eqb c Js.CR && Ascii.eqb c' Js.LF).
        -- intros [->|Hin]%elem_of_cons; [done|].
           apply (IH s' EmptyString); [cbn in Hlen; lia|done|done].
        -- apply (IH (String c' s')); [lia|by apply Hpush].
  Qed.

Lemma txtLines_no_line_feed content line :
  line ∈ Validator.txtLines content -> containsChar Js.LF line = false.
Proof.
  unfold Validator.txtLines. rewrite list_elem_of_In, filter_In, <- list_elem_of_In.
  intros [Hin _].
  by apply (splitLines_no_line_feed (String.length content) content EmptyString).
Qed.

(** Both TXT validators count a line by that test, so the number they
    report is the number of lines that do not start with [http(s)://] or
    hold a carriage return. *)
Lemma txt_invalid_count content :
  Validator.countWhere Validator.invalidLine (Validator.txtLines content)
  = Validator.countWhere
      (fun line => negb (Js.isHttpUrl line) || containsChar Js.CR line)
      (Validator.txtLines content).
Proof.
  unfold Validator.countWhere. do 2 f_equal.
  apply List.filter_ext_in. intros line Hin%list_elem_of_In.
  unfold Validator.invalidLine.
  by rewrite hasNewline_split, (txtLines_no_line_feed content line Hin), orb_false_r.
Qed.

(** Claim C10, as amended.  A line of a TXT sitemap never holds a line
    feed, and it is counted invalid exactly when it does not start with
    [http://] or [https://] (in any letter case) or holds a carriage
    return: a carriage return that no line feed follows does not end a
    line and stays in it. *)
Theorem txt_line_invalid_iff_not_http_or_carriage_return
    (content line : string) :
  line ∈ Validator.txtLines content ->
  containsChar Js.LF line = false
  /\ Validator.invalidLine line
     = negb (Js.isHttpUrl line) || containsChar Js.CR line.
Proof.
  intros Hin. pose proof (txtLines_no_line_feed content line Hin) as Hlf.
  split; [done|].
  unfold Validator.invalidLine. by rewrite hasNewline_split, Hlf, orb_false_r.
Qed.



(** ** The unit tests of [normalizeUrl] and [normalizePathToUrl], on the
    reference platform *)

Example normalizeUrl_tests :
  normalizeUrl Reference.platform "https://example.com" "/page.html" = Some "https://example.com/page.html"
  /\ normalizeUrl Reference.platform "https://example.com/" "/page.html" = Some "https://example.com/page.html"
  /\ normalizeUrl Reference.platform "https://example.com" "page.html" = Some "https://example.com/page.html"
  /\ normalizeUrl Reference.platform "https://example.com" "./page.html" = Some "https://example.com/page.html"
  /\ normalizeUrl Reference.platform "https://example.com" "/blog/post.html" = Some "https://example.com/blog/post.html"
  /\ normalizeUrl Reference.platform "https://example.com" "/" = Some "https://example.com/".
Proof. by vm_compute. Qed.

Example normalizePathToUrl_tests :
  normalizePathToUrl Reference.platform "https://example.com" "/workspaces/sitemap-builder/public"
    "/workspaces/sitemap-builder/public/about.html" = Some "https://example.com/about.html"
  /\ normalizePathToUrl Reference.platform "https://example.com" "/workspaces/sitemap-builder/public"
       "/workspaces/sitemap-builder/public/blog/post.html"
     = Some "https://example.com/blog/post.html"
  /\ normalizePathToUrl Reference.platform "https://example.com" "C:\project\public"
       "C:\project\public\page.html" = Some "https://example.com/page.html".
Proof. by vm_compute. Qed.

(** ** Worked examples *)

Example linked_site_urls :
  (fun final : list Item => url <$> final) <$> buildUrls Reference.platform linked linkedOptions
  = Some ["https://example.com/"; "https://example.com/about.html";
          "https://example.com/doc.pdf"; "https://example.com/extra";
          "https://example.com/index.html"].
Proof. by vm_compute. Qed.

Example twelve_pages_in_chunks_of_five :
  (fun chunks : list (list nat) => length <$> chunks)
    <$> chunkUrls 13 (seq 0 12) (Some 5)
  = Some [5; 5; 2]%nat.
Proof. by vm_compute. Qed.

Example valid_priority_run_writes :
  (fun out => (failures out, length (artifacts out)))
    <$> run Reference.platform mixedCase (inputs "0.8") 10
  = Some ([], 3%nat).
Proof. by vm_compute. Qed.

Example twelve_pages_run :
  (fun out => (failures out, length (artifacts out)))
    <$> run Reference.platform twelve (inputs EmptyString) 20
  = Some ([], 11%nat).
Proof. by vm_compute. Qed.

(** ** Witnesses and counterexamples *)

(** Claim C1 on the linked site. *)
Lemma buildUrls_urls_unique_witness :
  exists final,
    buildUrls Reference.platform linked linkedOptions = Some final /\ NoDup (url <$> final).
Proof.
  eexists. split; [vm_compute; reflexivity|].
  apply (buildUrls_urls_unique Reference.platform linked linkedOptions).
  vm_compute. reflexivity.
Defined.

(** Claim C2 on twelve items and a limit of five. *)
Lemma chunkUrls_partition_witness :
  exists chunks,
    chunkUrls 13 (seq 0 12) (Some 5) = Some chunks
    /\ Z.of_nat (length chunks) = ceilDiv 12 5
    /\ (forall k c, chunks !! k = Some c -> (S k < length chunks)%nat ->
          Z.of_nat (length c) = 5)
    /\ Forall (fun c => 1 <= Z.of_nat (length c) <= 5) chunks
    /\ concat chunks = seq 0 12.
Proof.
  apply (chunkUrls_partition (seq 0 12) 5 13); [lia|cbn; lia].
Defined.

(** The guard on a run with priority [1.5]. *)
Lemma invalid_priority_aborts_witness :
  exists out,
    run Reference.platform mixedCase (inputs "1.5") 10 = Some out
    /\ artifacts out = []
    /\ (failures out = [InvalidPriority (getInput (inputs "1.5") "priority")]
        \/ failures out = [MissingSiteUrl]
        \/ failures out = [MissingPublicDir]).
Proof.
  apply (invalid_priority_aborts_before_any_write Reference.platform mixedCase (inputs "1.5") 10);
    vm_compute; reflexivity.
Defined.

(** Claim C3 fails on the code.  The priority [0.5abc] is not a number,
    but the guard reads it with [parseFloat], which stops at the first
    character that fits no number and answers [0.5]: the run reports no
    failure and writes its three files, and every item carries
    [Number("0.5abc")], which is [NaN], as its priority.  The same
    happens with [0x10], which [parseFloat] reads as [0] and [Number] as
    [16]. *)
Theorem priority_with_trailing_text_is_written :
  let items (priority : string) :=
    [{| url := "https://example.com/a.html"; lastmod := None; changefreq := None;
        priority := Some (PriorityNumber priority) |};
     {| url := "https://example.com/B.html"; lastmod := None; changefreq := None;
        priority := Some (PriorityNumber priority) |}] in
  let written (priority : string) :=
    Some {| failures := [];
            artifacts := [XmlFile "/site/sitemap.xml" (items priority);
                          GzipFile "/site/sitemap.xml.gz";
                          TxtFile "/site/sitemap.txt" (items priority)] |} in
  parseFloat Reference.platform "0.5abc" = Js.Finite 0.5%Q
  /\ Js.outsideUnitInterval (parseFloat Reference.platform "0.5abc") = false
  /\ run Reference.platform mixedCase (inputs "0.5abc") 10 = written "0.5abc"
  /\ Js.outsideUnitInterval (parseFloat Reference.platform "0x10") = false
  /\ run Reference.platform mixedCase (inputs "0x10") 10 = written "0x10".
Proof. by vm_compute. Qed.

(** Claim C4 fails on the code.  The entry [*/a.html] becomes the
    expression [^.*/a.html$], in which the dot of [a.html] is not
    escaped and stands for any character: of the three pages
    [buildUrls] keeps [b.html] only, removing
    [https://example.com/aXhtml] along with [https://example.com/a.html],
    although the entry neither equals that URL nor matches it when [*]
    stands for any characters, [?] for one, and the rest for itself. *)
Theorem unescaped_dot_excludes_another_url :
  collectItems Reference.platform dotted (options ["*/a.html"] [])
  = Some (plainItem <$> ["https://example.com/aXhtml"; "https://example.com/a.html";
                         "https://example.com/b.html"])
  /\ buildUrls Reference.platform dotted (options ["*/a.html"] [])
     = Some [plainItem "https://example.com/b.html"]
  /\ excludeRegex "*/a.html" = "^.*/a.html$"
  /\ RegExp_test Reference.platform (excludeRegex "*/a.html")
       "https://example.com/aXhtml" = Some true
  /\ globExcluded ["*/a.html"] "https://example.com/aXhtml" = false
  /\ globExcluded ["*/a.html"] "https://example.com/a.html" = true.
Proof. by vm_compute. Qed.

(** Hence exclusion is not the wildcard matching of the
    specification. *)
Lemma exclusion_wildcard_counterexample :
  ~ ExclusionIsWildcardMatching Reference.platform dotted (options ["*/a.html"] []).
Proof.
  intros H.
  specialize (H (plainItem <$> ["https://example.com/aXhtml";
                                "https://example.com/a.html";
                                "https://example.com/b.html"])
                [plainItem "https://example.com/b.html"]).
  specialize (H ltac:(by vm_compute) ltac:(by vm_compute)
                (plainItem "https://example.com/aXhtml")).
  destruct H as [H _].
  - vm_compute. left.
  - assert (globExcluded ["*/a.html"] "https://example.com/aXhtml" = true) as Hg; [|by vm_compute in Hg].
    apply H. intros Hin. apply list_elem_of_singleton in Hin. discriminate.
Qed.

(** What the filter computes, on the same site. *)
Lemma exclusion_by_equality_or_regex_witness :
  exists merged,
    collectItems Reference.platform dotted (options ["*/a.html"] []) = Some merged
    /\ forall item,
         item ∈ [plainItem "https://example.com/b.html"]
         <-> item ∈ removeDuplicates merged
             /\ ~ excludedBy Reference.platform ["*/a.html"] (url item).
Proof.
  apply (exclusion_by_equality_or_regex Reference.platform dotted (options ["*/a.html"] [])).
  vm_compute. reflexivity.
Defined.

(** Claim C5 on the linked site: two walked pages, two manual URLs of
    which one repeats a page, and three discovered links of which one
    is new. *)
Lemma merge_order_witness :
  let walked := plainItem <$> ["https://example.com/"; "https://example.com/about.html"] in
  let discoveredSet :=
    ["https://example.com/about.html"; "https://example.com/doc.pdf";
     "https://example.com/index.html"] in
  let manual := mergedItem linkedOptions <$> additionalUrls linkedOptions in
  let added :=
    discoveredToAdd linkedOptions (getMaxTotalUrls linked) (getMaxDiscoveredLinks linked)
      (walked ++ manual) discoveredSet in
  let merged := walked ++ manual ++ (mergedItem linkedOptions <$> added) in
  collectItems Reference.platform linked linkedOptions = Some merged
  /\ url <$> merged = (url <$> walked) ++ additionalUrls linkedOptions ++ added
  /\ Forall (fun item =>
               changefreq item = opt_changefreq linkedOptions
               /\ priority item = PriorityRaw <$> opt_priority linkedOptions)
       (manual ++ (mergedItem linkedOptions <$> added))
  /\ removeDuplicates merged = firstOccurrences merged
  /\ forall final,
       buildUrls Reference.platform linked linkedOptions = Some final ->
       forall item,
         item ∈ final
         <-> item ∈ firstOccurrences merged
             /\ ~ excludedBy Reference.platform (excludeUrls linkedOptions) (url item).
Proof.
  apply (merge_order_and_first_occurrence Reference.platform linked linkedOptions).
  vm_compute. reflexivity.
Defined.

(** The merged list of the linked site, and what is left of it. *)
Example linked_site_merge :
  (fun merged : list Item => url <$> merged)
    <$> collectItems Reference.platform linked linkedOptions
  = Some ["https://example.com/"; "https://example.com/about.html";
          "https://example.com/about.html"; "https://example.com/extra";
          "https://example.com/doc.pdf"; "https://example.com/index.html"]
  /\ discoveredToAdd linkedOptions (getMaxTotalUrls linked)
       (getMaxDiscoveredLinks linked)
       ((plainItem <$> ["https://example.com/"; "https://example.com/about.html"])
          ++ (mergedItem linkedOptions <$> additionalUrls linkedOptions))
       ["https://example.com/about.html"; "https://example.com/doc.pdf";
        "https://example.com/index.html"]
     = ["https://example.com/doc.pdf"; "https://example.com/index.html"].
Proof. by vm_compute. Qed.

(** Claim C6 as stated fails: [blog/post.html] with the canonical link
    [other.html] gets [https://example.com/other.html], not
    [https://example.com/blog/other.html]. *)
Lemma canonical_containing_dir_counterexample :
  ~ CanonicalResolvesInContainingDir Reference.platform nested (options [] []).
Proof.
  intros H.
  destruct (H None 0%nat "blog/post.html" [] []
              {| mtimeISO := stamp; isFile := true |}
              {| canonicalHref := Some "other.html"; anchorHrefs := [] |}
              "other.html")
    as (item & ds' & Hw & Hu); try (by vm_compute).
  vm_compute in Hw. injection Hw as <- <-. by vm_compute in Hu.
Qed.

(** The amended claim C6 on the same page. *)
Lemma canonical_relative_witness :
  exists item ds',
    walkFile Reference.platform nested (options [] []) None 0 "blog/post.html" ([], [])
    = Some ([] ++ [item], ds')
    /\ url item
       = default "https://example.com/blog/post.html"
           (normalizePathToUrl Reference.platform "https://example.com" site
              (path_join Reference.platform site (Js.stripLeadingSlash "other.html"))).
Proof.
  apply (canonical_relative_resolves_under_publicDir Reference.platform nested (options [] [])
           None 0 "blog/post.html" [] []
           {| mtimeISO := stamp; isFile := true |}
           {| canonicalHref := Some "other.html"; anchorHrefs := [] |}
           "other.html" "https://example.com/blog/post.html");
    vm_compute; reflexivity.
Defined.

(** Claim C7 as stated fails: with a cap of two links, three
    discoverable links and a cap of two URLs on the collection, one
    discovered item is retained. *)
Lemma discovery_cap_counterexample :
  ~ RetainsExactlyTheCap Reference.platform capped (options [] []).
Proof.
  intros H.
  specialize (H 2 [plainItem "https://example.com/index.html"]
                ["https://example.com/p-0.html"; "https://example.com/p-1.html";
                 "https://example.com/p-2.html"]
                ltac:(by vm_compute) ltac:(by vm_compute) ltac:(by vm_compute)).
  by vm_compute in H.
Qed.

(** The same on a site whose links all point to walked pages: the one
    link the cap admits is already an item, so none is added. *)
Lemma discovery_cap_walked_links :
  ~ RetainsExactlyTheCap Reference.platform selfLinked (options [] []).
Proof.
  intros H.
  specialize (H 1 (plainItem <$> ["https://example.com/index.html";
                                  "https://example.com/about.html";
                                  "https://example.com/contact.html"])
                ["https://example.com/about.html"; "https://example.com/contact.html"]
                ltac:(by vm_compute) ltac:(by vm_compute) ltac:(by vm_compute)).
  by vm_compute in H.
Qed.

(** The amended claim C7 on a site with three discoverable links, a cap
    of two and room in the collection: the first two links are kept
    and both become items. *)
Lemma discovery_cap_witness :
  let allLinks :=
    ["https://example.com/p-0.html"; "https://example.com/p-1.html";
     "https://example.com/p-2.html"] in
  let kept := take (Z.to_nat 2) allLinks in
  let base := addManual (options [] []) [plainItem "https://example.com/index.html"] in
  let fresh := List.filter (fun u => negb (hasUrl base u)) kept in
  let added := discoveredToAdd (options [] []) (getMaxTotalUrls roomy) (Some 2) base kept in
  walk Reference.platform roomy (options [] []) (Some 2)
  = Some ([plainItem "https://example.com/index.html"], kept)
  /\ Z.of_nat (length kept) <= 2
  /\ (2 < Z.of_nat (length allLinks) -> Z.of_nat (length kept) = 2)
  /\ collectItems Reference.platform roomy (options [] [])
     = Some (base ++ (mergedItem (options [] []) <$> added))
  /\ added `prefix_of` fresh
  /\ Z.of_nat (length added) <= 2
  /\ (forall T, getMaxTotalUrls roomy = Some T ->
        Z.of_nat (length base + length added) <= Z.max T (Z.of_nat (length base)))
  /\ (Z.of_nat (length added) = 2
      <-> 2 = 0
          \/ (discoverLinks (options [] []) = true
              /\ 2 <= Z.of_nat (length fresh)
              /\ forall T, getMaxTotalUrls roomy = Some T ->
                   Z.of_nat (length base) + 2 <= T)).
Proof.
  apply (discovery_cap_keeps_first_K Reference.platform roomy (options [] []) 2
           [plainItem "https://example.com/index.html"]
           ["https://example.com/p-0.html"; "https://example.com/p-1.html";
            "https://example.com/p-2.html"]);
    [vm_compute; reflexivity|lia|vm_compute; reflexivity].
Defined.

(** On that site exactly two discovered items are retained; on the site
    whose collection is capped at two URLs, one. *)
Example discovery_cap_retained :
  discoveredToAdd (options [] []) (getMaxTotalUrls roomy) (Some 2)
    [plainItem "https://example.com/index.html"]
    ["https://example.com/p-0.html"; "https://example.com/p-1.html"]
  = ["https://example.com/p-0.html"; "https://example.com/p-1.html"]
  /\ discoveredToAdd (options [] []) (getMaxTotalUrls capped) (Some 2)
       [plainItem "https://example.com/index.html"]
       ["https://example.com/p-0.html"; "https://example.com/p-1.html"]
     = ["https://example.com/p-0.html"]
  /\ (fun merged : list Item => url <$> merged)
       <$> collectItems Reference.platform capped (options [] [])
     = Some ["https://example.com/index.html"; "https://example.com/p-0.html"].
Proof. by vm_compute. Qed.

(** Without a cap on the collection the discovered links that are new
    all become items: here both links that the cap of two admits. *)
Example discovery_cap_fills :
  (fun final : list Item => url <$> final)
    <$> buildUrls Reference.platform
          (world ["index.html"]
             ["/site/p-0.html"; "/site/p-1.html"; "/site/p-2.html"]
             [("/site/index.html", threeLinks)]
             [("TEST_MAX_DISCOVERED_LINKS", "2")])
          (options [] ["https://example.com/manual"])
  = Some ["https://example.com/index.html"; "https://example.com/manual";
          "https://example.com/p-0.html"; "https://example.com/p-1.html"].
Proof. by vm_compute. Qed.

(** Claim C8 as stated fails: [a.html] is placed before [B.html], which
    the plain order of strings puts first. *)
Lemma plain_order_counterexample :
  ~ SortedInPlainOrder Reference.platform mixedCase (options [] []).
Proof.
  intros H.
  assert (Hb : buildUrls Reference.platform mixedCase (options [] [])
               = Some (plainItem <$> ["https://example.com/a.html";
                                      "https://example.com/B.html"]))
    by (by vm_compute).
  specialize (H _ Hb O (plainItem "https://example.com/a.html")
                (plainItem "https://example.com/B.html") eq_refl eq_refl).
  by vm_compute in H.
Qed.

(** The amended claim C8 on the same site. *)
Lemma sorted_by_localeCompare_witness :
  ascending (fun a b => localeCompare Reference.platform (url a) (url b) <= 0)
    (plainItem <$> ["https://example.com/a.html"; "https://example.com/B.html"]).
Proof.
  apply (buildUrls_sorted_by_localeCompare Reference.platform mixedCase (options [] [])).
  - exact compareStrings_connex.
  - vm_compute. reflexivity.
Defined.

(** Claim C9 as stated fails: under the strict policy a location that
    is not an http(s) URL is reported as a warning. *)
Lemma policy_grading_counterexample :
  ~ EveryCheckGradedByPolicy Reference.platform badValuesXml true (Some 50000).
Proof.
  intros H.
  specialize (H (Validator.InvalidLocUrls (Validator.invalidLocCount badValuesXml))
                Advisory).
  assert (Hfail : 0 < Validator.invalidLocCount badValuesXml) by (by vm_compute).
  specialize (H (fails_loc_values Reference.platform badValuesXml (Some 50000) Hfail)).
  vm_compute in H.
  repeat (apply elem_of_cons in H as [H|H]; [discriminate H|]).
  by apply elem_of_nil in H.
Qed.

(** The amended claim C9 on the same document. *)
Lemma xml_findings_witness :
  {| Validator.type := Validator.warning; Validator.message := Validator.InvalidLocUrls 1 |}
    ∈ Validator.validateXmlSitemap Reference.platform badValuesXml true (Some 50000)
  <-> exists g,
        Fails Reference.platform badValuesXml (Some 50000) (Validator.InvalidLocUrls 1) g
        /\ Validator.warning = severity true g.
Proof.
  apply (xml_findings_graded_or_advisory Reference.platform badValuesXml true (Some 50000)
           {| Validator.type := Validator.warning;
              Validator.message := Validator.InvalidLocUrls 1 |}).
  discriminate.
Defined.

(** Claim C10 as stated fails: a line that starts with [https://] and
    holds a stray carriage return is counted invalid. *)
Lemma txt_invalid_line_counterexample : ~ InvalidIffNotHttp strayReturnTxt.
Proof.
  intros H. specialize (H strayReturnTxt).
  assert (Hin : strayReturnTxt ∈ Validator.txtLines strayReturnTxt).
  { vm_compute. left. }
  specialize (H Hin). by vm_compute in H.
Qed.

(** The amended claim C10 on the same line. *)
Lemma txt_line_invalid_witness :
  containsChar Js.LF strayReturnTxt = false
  /\ Validator.invalidLine strayReturnTxt
     = negb (Js.isHttpUrl strayReturnTxt) || containsChar Js.CR strayReturnTxt.
Proof.
  apply (txt_line_invalid_iff_not_http_or_carriage_return strayReturnTxt strayReturnTxt).
  vm_compute. left.
Defined.
